(** * BFT-RFForensics: the adversarial actor-critic learner and the
      graph-attention agent

    A shallow embedding of [src/learner/learner.py] (class
    [SeparateLearner] and the helper [list_rev_onehot]) and of
    [src/module/agents/dgn_agent.py] (classes [AttModel] and [DGNAgent]).

    Python values are modelled as follows.
    - A one-dimensional numeric tensor of recorded actions is a [list Q];
      a flag tensor ([filled], [terminated]) holds integers, so its
      [.float()] copy and the products and sums taken of it are exact and
      are computed in [Z].
    - Python slicing [x[a:b]] is [slice a b x]: it never raises and is
      clamped to the length of [x].
    - An exception is a value of [exn]; a call that may raise returns a
      [result].
    - Attributes of [self] that a method mutates are fields of a record
      that is threaded through the calls; an attribute that [__init__]
      never assigns is an [option] that starts at [None].
    - Calls to collaborators whose source is not part of the repository
      slice (the controller, the critic network, the optimisers, the
      logger) are recorded as [event]s in a trace, in program order; the
      parameters they produce are given by the operations of the class
      [Collaborators]. Pure tensor arithmetic between such calls (stack,
      gather, cat, log, sum) is assumed to be shape-correct and leaves no
      event.
    - The attention block computes over [R]. *)

From Stdlib Require Import QArith Reals Lra.
From stdpp Require Import gmap strings list fin_maps.

Open Scope Z_scope.

(** ** Exceptions and results *)

Inductive exn : Type :=
| NameError (name : string)
| AttributeError (attr : string)
| IndexError
| KeyError (key : string)
| RuntimeError (what : string)
| ZeroDivisionError
| FileNotFoundError (path : string).

Inductive result (A : Type) : Type :=
| Ok (a : A)
| Raise (e : exn).
Arguments Ok {A} a.
Arguments Raise {A} e.

#[global] Instance result_ret : MRet result := λ A a, Ok a.
#[global] Instance result_bind : MBind result := λ A B f m,
  match m with
  | Ok a => f a
  | Raise e => Raise e
  end.

Definition is_Ok {A} (r : result A) : bool :=
  match r with Ok _ => true | Raise _ => false end.

(** [l[i]] on a Python list or on the first axis of a tensor, [i >= 0]. *)
Definition getitem {A} (l : list A) (i : nat) : result A :=
  match l !! i with
  | Some a => Ok a
  | None => Raise IndexError
  end.

(** [x[a:b]] for non-negative bounds. *)
Definition slice {A} (a b : nat) (x : list A) : list A := drop a (take b x).

(** [x[a:]]. *)
Definition slice_from {A} (a : nat) (x : list A) : list A := drop a x.

(** [x[:-1]]. *)
Definition slice_init {A} (x : list A) : list A := take (length x - 1) x.

(** A name that a function body reads is looked up in the names bound in
    its scope. *)
Definition load_name (scope : list string) (name : string) : result unit :=
  if bool_decide (name ∈ scope) then Ok () else Raise (NameError name).

(** An attribute of [self] that may not have been assigned. *)
Definition getattr {A} (name : string) (slot : option A) : result A :=
  match slot with
  | Some a => Ok a
  | None => Raise (AttributeError name)
  end.

(** A method call on a tensor: the methods of [torch.Tensor] that the
    learner names are [clone] (a copy) and the misspelt [clnoe]. *)
Definition tensor_call {A} (method : string) (x : A) : result A :=
  if bool_decide (method = "clone") then Ok x
  else Raise (AttributeError method).

(** Python's [a / b] on numbers. *)
Definition py_truediv (a b : Z) : result Q :=
  if b =? 0 then Raise ZeroDivisionError
  else Ok (inject_Z a / inject_Z b)%Q.

(** ** Configuration: the fields of [args] the two files read *)

Record Args : Type := {
  n_peers : nat;
  n_agents : nat;
  num_malicious : nat;
  max_message_num_per_round : nat;
  max_view_num : nat;
  max_seq_num : nat;
  total_client_vals : nat;
  target_update_interval : Z;
  learner_log_interval : Z;
  obs_last_action : bool;
  obs_agent_id : bool;
  type : string;
}.

(** ** Certificate decoding: [list_rev_onehot] *)

(** One iteration of the loop: [x[2*idx] == 1] selects the flag that is
    appended. *)
Definition list_rev_onehot_step (x : list Q) (ret : list Z) (idx : nat)
  : result (list Z) :=
  v ← getitem x (2 * idx)%nat;
  if Qeq_bool v 1 then mret (ret ++ [1]) else mret (ret ++ [0]).

Fixpoint list_rev_onehot_loop (x : list Q) (ret : list Z) (idxs : list nat)
  : result (list Z) :=
  match idxs with
  | [] => mret ret
  | idx :: idxs' =>
      ret' ← list_rev_onehot_step x ret idx;
      list_rev_onehot_loop x ret' idxs'
  end.

Definition list_rev_onehot (x : list Q) : result (list Z) :=
  list_rev_onehot_loop x [] (seq 0 (length x / 2)%nat).

(** The flag the decoder produces for a first-of-pair value. *)
Definition chosen_flag (v : Q) : Z := if Qeq_bool v 1 then 1 else 0.

(** The pairs of a certificate segment, flattened back. *)
Definition flatten_pairs (ps : list (Q * Q)) : list Q :=
  concat ((λ p, [p.1; p.2]) <$> ps).

Fixpoint to_pairs (x : list Q) : list (Q * Q) :=
  match x with
  | a :: b :: x' => (a, b) :: to_pairs x'
  | _ => []
  end.

(** ** The episode batch *)

(** The keys of the batch whose values the learner itself inspects. The
    trailing axis of width 1 of [filled] and [terminated] is dropped; the
    reward and identifier-action tensors are only handed on to
    collaborators. *)
Record EpisodeBatch : Type := {
  batch_size : nat;
  max_seq_length : nat;
  filled : list (list Z);
  terminated : list (list Z);
  attacker_action : list (list (list Q));
}.


(** ** The validity mask of [train] (lines 50-52) *)

(** [mask[:, 1:] = mask[:, 1:] * (1 - terminated[:, :-1])] on the row of
    one episode; both arguments are already cut to [T-1] steps. *)
Definition mask_assign_row (mask terminated : list Z) : list Z :=
  take 1 mask
  ++ zip_with (λ m te, m * (1 - te)) (slice_from 1 mask) (slice_init terminated).

Definition train_mask (batch : EpisodeBatch) : list (list Z) :=
  let terminated := slice_init <$> terminated batch in
  let mask := slice_init <$> filled batch in
  zip_with mask_assign_row mask terminated.

(** [mask.repeat(1, 1, n)]: the last axis, of width 1, is copied [n]
    times. *)
Definition repeat_last (n : nat) (mask : list (list Z)) : list (list (list Z)) :=
  (λ row : list Z, (λ m : Z, replicate n m) <$> row) <$> mask.

(** [mask[:, t]]. *)
Definition column {A} (t : nat) (x : list (list A)) : result (list A) :=
  mapM (λ row, getitem row t) x.

Definition sum_list (x : list Z) : Z := foldr Z.add 0 x.

(** [.sum()] of a two-axis and of a flag tensor. *)
Definition tensor_sum (x : list (list Z)) : Z := sum_list (sum_list <$> x).

(** The reading of the mask in the specification: from the first step
    whose terminated flag is set onwards, every step but step 0 is
    masked out. *)
Definition first_terminated (terminated : list Z) : option nat :=
  fst <$> list_find (λ te, te = 1) terminated.

Definition zero_from_termination (mask terminated : list Z) : Prop :=
  ∀ t0 t, first_terminated terminated = Some t0 →
    (t0 ≤ t)%nat → (0 < t)%nat → (t < length mask)%nat → mask !! t = Some 0.

(** ** Collaborators *)

Inductive optimiser : Type := IdentifierOpt | AttackerOpt | CriticOpt.

(** What a persisted file holds. *)
Inductive file (M C O : Type) : Type :=
| FMac (m : M)
| FState (c : C)
| FOptim (o : O).
Arguments FMac {M C O} m.
Arguments FState {M C O} c.
Arguments FOptim {M C O} o.

(** The collaborators of the learner that lie outside the slice: the
    controller, the critic network, the Adam optimisers and the one-hot
    decoder. Their states are abstract; an update operation gives the
    state after the optimiser step that the learner triggers. *)
Class Collaborators : Type := {
  Mac : Type;
  Critic : Type;
  Optim : Type;
  (** [components.action_selectors.rev_onehot] *)
  rev_onehot : list Q → Z;
  (** the critic and its optimiser after the update at step [t] *)
  critic_update : EpisodeBatch → nat → Critic → Optim → Critic * Optim;
  (** the controller and an actor optimiser after a policy update *)
  actor_update : optimiser → EpisodeBatch → Mac → Optim → Mac * Optim;
  (** [mac.save_models(path)] and [mac.load_models(path)] *)
  mac_save_models : Mac → string → gmap string (file Mac Critic Optim)
                    → gmap string (file Mac Critic Optim);
  mac_load_models : Mac → string → gmap string (file Mac Critic Optim)
                    → result Mac;
}.

(** ** Per-message decoding: [_parse_input_message] *)

(** A decoded message is the Python list
    [[type, sender, view, seq, val, receiver, certificate]]: six category
    indices followed by one list of inclusion flags. *)
Record message : Type := {
  msg_fields : list Z;
  msg_certificate : list Z;
}.

(** [len(msg)]. *)
Definition message_len (m : message) : nat := S (length (msg_fields m)).

Definition num_msg_type : nat := 10.

Definition _parse_input_message `{Collaborators} (args : Args) (msg_input : list Q)
  : result message :=
  let msg := [] in
  let idx := 0%nat in
  let msg_type_input := slice idx num_msg_type msg_input in
  let msg := msg ++ [rev_onehot msg_type_input] in
  let idx := num_msg_type in
  let sender_id_input := slice idx (idx + num_malicious args) msg_input in
  let msg := msg ++ [rev_onehot sender_id_input] in
  let idx := (idx + num_malicious args)%nat in
  let view_num_input := slice idx (idx + max_view_num args) msg_input in
  let msg := msg ++ [rev_onehot view_num_input] in
  let idx := (idx + max_view_num args)%nat in
  let seq_num_input := slice idx (idx + max_seq_num args) msg_input in
  let msg := msg ++ [rev_onehot seq_num_input] in
  let idx := (idx + max_seq_num args)%nat in
  let val_input := slice idx (idx + total_client_vals args) msg_input in
  let msg := msg ++ [rev_onehot val_input] in
  let idx := (idx + total_client_vals args)%nat in
  let receiver_id_input := slice idx (idx + n_peers args) msg_input in
  let msg := msg ++ [rev_onehot receiver_id_input] in
  let idx := (idx + n_peers args)%nat in
  let certificate_input := slice_from idx msg_input in
  cert ← list_rev_onehot certificate_input;
  mret {| msg_fields := msg; msg_certificate := cert |}.

(** The documented width of one encoded message. *)
Definition msg_width (args : Args) : nat :=
  (10 + num_malicious args + max_view_num args + max_seq_num args
   + total_client_vals args + n_peers args + 2 * n_peers args)%nat.

(** ** Decoding the recorded attacker actions: [_parse_attacker_actions] *)

(** [actions.size(1)] and the size of the last axis. *)
Definition size1 {A} (x : list (list A)) : nat :=
  match x with r :: _ => length r | [] => 0%nat end.

Definition size2 {A} (x : list (list (list A))) : nat :=
  match x with (r :: _) :: _ => length r | _ => 0%nat end.

(** [n] consecutive runs of width [w]. *)
Fixpoint chunks {A} (n w : nat) (x : list A) : list (list A) :=
  match n with
  | O => []
  | S n' => take w x :: chunks n' w (drop w x)
  end.

(** [actions.view(bs, t_len, n, -1)]: the last axis is cut into [n] runs
    of one width. torch refuses the call when the three given sizes
    multiply to zero (the width is then ambiguous or the shape invalid)
    and when they do not divide the number of entries. *)
Definition view_msgs (bs t_len n : nat) (actions : list (list (list Q)))
  : result (list (list (list (list Q)))) :=
  let width := size2 actions in
  let numel := (bs * t_len * width)%nat in
  let known := (bs * t_len * n)%nat in
  if (known =? 0)%nat || negb (numel mod known =? 0)%nat
  then Raise (RuntimeError "view")
  else Ok ((λ ep : list (list Q),
              (λ row : list Q, chunks n (width / n) row) <$> ep) <$> actions).

(** The nested loops that regather one component of every decoded
    message into a [bs, t, msgs] index tensor. *)
Definition regather {A B} (bs t_len total_msgs_num : nat)
    (parsed_actions : list (list (list A))) (pick : A → result B)
  : result (list (list (list B))) :=
  mapM (λ bs_idx,
    mapM (λ t_idx,
      mapM (λ msg_idx,
        ep ← getitem parsed_actions bs_idx;
        row ← getitem ep t_idx;
        m ← getitem row msg_idx;
        pick m)
      (seq 0 total_msgs_num))
    (seq 0 t_len))
  (seq 0 bs).

(** The body of [_parse_attacker_actions] after its [print]. The value
    returned by the source is the list of the six field tensors with the
    list of certificate tensors appended: here a pair. *)
Definition parse_attacker_actions_body `{Collaborators} (args : Args)
    (actions : list (list (list Q)))
  : result (list (list (list (list Z))) * list (list (list (list Z)))) :=
  let bs := length actions in
  let t_len := size1 actions in
  let total_msgs_num := (num_malicious args * max_message_num_per_round args)%nat in
  actions ← view_msgs bs t_len total_msgs_num actions;
  parsed_actions ← regather bs t_len total_msgs_num actions
                     (_parse_input_message args);
  p0 ← getitem parsed_actions 0;
  p00 ← getitem p0 0;
  p000 ← getitem p00 0;
  let num_action_types := message_len p000 in
  ret ← mapM (λ idx,
           regather bs t_len total_msgs_num parsed_actions
             (λ m, getitem (msg_fields m) idx))
         (seq 0 (num_action_types - 1));
  ret_cert ← mapM (λ idx,
                regather bs t_len total_msgs_num parsed_actions
                  (λ m, getitem (msg_certificate m) idx))
              (seq 0 (n_peers args));
  mret (ret, ret_cert).

(** ** The learner and its state *)

Record SeparateLearner `{Collaborators} : Type := {
  mac : Mac;
  target_mac : Mac;
  critic : Critic;
  target_critic : Critic;
  identifier_optimiser : Optim;
  attacker_optimiser : Optim;
  critic_optimiser : Optim;
  last_target_update_episode : Z;
  critic_training_steps : Z;
  (** read by [train] (line 112), assigned nowhere in [__init__] *)
  last_target_update_step : option Z;
  log_stats_t : Z;
}.

(** [__init__]: the networks and optimisers it builds are given; the
    counters are set as in lines 23, 24 and 39. *)
Definition init `{Collaborators} (args : Args) (mac0 : Mac)
    (critic0 target_critic0 : Critic) (id_opt att_opt cr_opt : Optim)
  : SeparateLearner :=
  {| mac := mac0;
     target_mac := mac0;
     critic := critic0;
     target_critic := target_critic0;
     identifier_optimiser := id_opt;
     attacker_optimiser := att_opt;
     critic_optimiser := cr_opt;
     last_target_update_episode := 0;
     critic_training_steps := 0;
     last_target_update_step := None;
     log_stats_t := - learner_log_interval args - 1 |}.

(** A sample of the running log, named by what it measures and the step
    it was taken at. *)
Inductive stat : Type :=
| LossItem (t : nat)
| GradNorm (t : nat)
| TdErrorAbs (t : nat)
| QTakenMean (t : nat)
| TargetMean (t : nat).

(** The calls that leave a trace: [print], the forward passes and hidden
    states of the networks, the target builder, the loss of an optimiser
    with the mask sum that divides it, the four calls of an optimiser
    step, the two [load_state] calls of a synchronisation, and the
    logger. *)
Inductive event : Type :=
| Print (what : string)
| InitHidden (net : string)
| TargetCriticForward (t : nat)
| BuildTdLambdaTargets
| CriticForward (t : nat)
| LossOver (o : optimiser) (denominator : Z)
| ZeroGrad (o : optimiser)
| Backward (o : optimiser)
| ClipGradNorm (o : optimiser)
| OptimStep (o : optimiser)
| MacForward (t : nat)
| LoadState (target : string)
| ConsoleInfo (msg : string)
| LogStat (name : string) (t_env : Z).

(** The store a call of [train] works on: the learner, the calls made to
    collaborators so far, and the two objects that [_train_critic]
    allocates and mutates in place. In [q_vals] a step holds the index of
    the online critic's forward pass stored there, if any. *)
Record world `{Collaborators} : Type := {
  self : SeparateLearner;
  calls : list event;
  q_vals : list (option nat);
  running_log : gmap string (list stat);
}.

Definition M `{Collaborators} (A : Type) : Type := world → result A * world.

#[global] Instance M_ret `{Collaborators} : MRet M := λ A a w, (Ok a, w).
#[global] Instance M_bind `{Collaborators} : MBind M := λ A B f m w,
  match m w with
  | (Ok a, w') => f a w'
  | (Raise e, w') => (Raise e, w')
  end.

Definition lift `{Collaborators} {A} (r : result A) : M A := λ w, (r, w).

Definition emit `{Collaborators} (ev : event) : M unit := λ w,
  (Ok (), {| self := self w; calls := calls w ++ [ev];
             q_vals := q_vals w; running_log := running_log w |}).

Definition get_self `{Collaborators} : M SeparateLearner := λ w, (Ok (self w), w).

Definition set_self `{Collaborators} (s : SeparateLearner) : M unit := λ w,
  (Ok (), {| self := s; calls := calls w;
             q_vals := q_vals w; running_log := running_log w |}).

(** An assignment to attributes of [self] from their current values. *)
Definition modify_self `{Collaborators} (g : SeparateLearner → SeparateLearner)
  : M unit := λ w,
  (Ok (), {| self := g (self w); calls := calls w;
             q_vals := q_vals w; running_log := running_log w |}).

Definition get_running_log `{Collaborators} : M (gmap string (list stat)) :=
  λ w, (Ok (running_log w), w).

Definition set_running_log `{Collaborators} (log : gmap string (list stat))
  : M unit := λ w,
  (Ok (), {| self := self w; calls := calls w;
             q_vals := q_vals w; running_log := log |}).

Definition set_q_vals `{Collaborators} (q : list (option nat)) : M unit := λ w,
  (Ok (), {| self := self w; calls := calls w;
             q_vals := q; running_log := running_log w |}).

Fixpoint for_each `{Collaborators} {A} (xs : list A) (body : A → M unit)
  : M unit :=
  match xs with
  | [] => mret ()
  | x :: xs' => body x ;; for_each xs' body
  end.

Definition _parse_attacker_actions `{Collaborators} (args : Args)
    (actions : list (list (list Q)))
  : M (list (list (list (list Z))) * list (list (list (list Z)))) :=
  emit (Print "actions_shape") ;;
  lift (parse_attacker_actions_body args actions).

(** *** Field updates of [self] *)

Definition with_critic `{Collaborators} (c : Critic) (o : Optim)
    (s : SeparateLearner) : SeparateLearner :=
  {| mac := mac s; target_mac := target_mac s;
     critic := c; target_critic := target_critic s;
     identifier_optimiser := identifier_optimiser s;
     attacker_optimiser := attacker_optimiser s;
     critic_optimiser := o;
     last_target_update_episode := last_target_update_episode s;
     critic_training_steps := critic_training_steps s;
     last_target_update_step := last_target_update_step s;
     log_stats_t := log_stats_t s |}.

Definition with_actor `{Collaborators} (o : optimiser) (m : Mac) (st : Optim)
    (s : SeparateLearner) : SeparateLearner :=
  {| mac := m; target_mac := target_mac s;
     critic := critic s; target_critic := target_critic s;
     identifier_optimiser :=
       match o with IdentifierOpt => st | _ => identifier_optimiser s end;
     attacker_optimiser :=
       match o with AttackerOpt => st | _ => attacker_optimiser s end;
     critic_optimiser := critic_optimiser s;
     last_target_update_episode := last_target_update_episode s;
     critic_training_steps := critic_training_steps s;
     last_target_update_step := last_target_update_step s;
     log_stats_t := log_stats_t s |}.

Definition with_targets `{Collaborators} (tm : Mac) (tc : Critic)
    (s : SeparateLearner) : SeparateLearner :=
  {| mac := mac s; target_mac := tm;
     critic := critic s; target_critic := tc;
     identifier_optimiser := identifier_optimiser s;
     attacker_optimiser := attacker_optimiser s;
     critic_optimiser := critic_optimiser s;
     last_target_update_episode := last_target_update_episode s;
     critic_training_steps := critic_training_steps s;
     last_target_update_step := last_target_update_step s;
     log_stats_t := log_stats_t s |}.

Definition with_counters `{Collaborators} (episode steps : Z)
    (last_step : option Z) (log_t : Z) (s : SeparateLearner) : SeparateLearner :=
  {| mac := mac s; target_mac := target_mac s;
     critic := critic s; target_critic := target_critic s;
     identifier_optimiser := identifier_optimiser s;
     attacker_optimiser := attacker_optimiser s;
     critic_optimiser := critic_optimiser s;
     last_target_update_episode := episode;
     critic_training_steps := steps;
     last_target_update_step := last_step;
     log_stats_t := log_t |}.

(** ** The critic's backward-time loop: [_train_critic] *)

(** The names bound in the module and in the body of [_train_critic]. *)
Definition module_globals : list string :=
  ["copy"; "rev_onehot"; "Critic"; "EpisodeBatch"; "th"; "Adam";
   "rev_list_onehot"; "build_td_lambda_targets"; "SeparateLearner";
   "list_rev_onehot"].

Definition _train_critic_locals : list string :=
  ["self"; "batch"; "rewards"; "terminated"; "mask"; "target_critic_outs";
   "target_critic_hidden"; "t"; "out"; "targets"; "q_vals"; "running_log";
   "critic_hidden"; "mask_t"; "q_t"; "td_error"; "masked_td_error"; "loss";
   "grad_norm"; "mask_elems"].

(** The dictionary of line 144. *)
Definition initial_running_log : gmap string (list stat) :=
  <["critic_loss" := []]> (<["critic_grad_norm" := []]> (<["td_error_abs" := []]>
  (<["target_mean" := []]> (<["q_taken_mean" := []]> ∅)))).

(** [running_log[key].append(arg)]: the list is looked up, then the
    argument is evaluated, then the sample is appended. *)
Definition running_log_append `{Collaborators} (key : string) (arg : M stat)
  : M unit :=
  log ← get_running_log;
  l ← lift (match log !! key with
            | Some l => Ok l
            | None => Raise (KeyError key)
            end);
  v ← arg;
  set_running_log (<[key := l ++ [v]]> log).

(** [x / d] for a Python float [x]. *)
Definition float_div_by (d : Z) : result unit :=
  if d =? 0 then Raise ZeroDivisionError else Ok ().

(** [q_vals[:, t] = q_t]. *)
Definition store_q `{Collaborators} (t : nat) : M unit := λ w,
  if bool_decide (t < length (q_vals w))%nat
  then set_q_vals (<[t := Some t]> (q_vals w)) w
  else (Raise IndexError, w).

(** One iteration of the loop of line 153, for step [t] of the mask of
    shape [bs, T-1, n_agents] (lines 154-181). *)
Definition critic_loop_body `{Collaborators} (args : Args)
    (batch : EpisodeBatch) (mask : list (list (list Z))) (t : nat) : M unit :=
  mask_t ← lift (column t mask);
  emit (Print "mask_t shape") ;;
  if tensor_sum mask_t =? 0 then mret ()
  else
    emit (CriticForward t) ;;
    store_q t ;;
    emit (LossOver CriticOpt (tensor_sum mask_t)) ;;
    emit (ZeroGrad CriticOpt) ;;
    emit (Backward CriticOpt) ;;
    emit (ClipGradNorm CriticOpt) ;;
    modify_self (λ s,
      let co := critic_update batch t (critic s) (critic_optimiser s) in
      with_critic co.1 co.2 s) ;;
    emit (OptimStep CriticOpt) ;;
    modify_self (λ s,
      with_counters (last_target_update_episode s)
        (critic_training_steps s + 1)
        (last_target_update_step s) (log_stats_t s) s) ;;
    running_log_append "critic_loss" (mret (LossItem t)) ;;
    running_log_append "critic_grad_norm" (mret (GradNorm t)) ;;
    let mask_elems := tensor_sum mask_t in
    running_log_append "td_error_abs"
      (lift (float_div_by mask_elems) ;; mret (TdErrorAbs t)) ;;
    running_log_append "q_taken_mean"
      (lift (float_div_by mask_elems) ;; mret (QTakenMean t)) ;;
    running_log_append "target_mean"
      (lift (load_name (_train_critic_locals ++ module_globals) "targets_t") ;;
       lift (float_div_by mask_elems) ;;
       mret (TargetMean t)).

Definition _train_critic `{Collaborators} (args : Args) (batch : EpisodeBatch)
    (mask : list (list (list Z))) : M unit :=
  emit (InitHidden "target_critic") ;;
  for_each (seq 0 (max_seq_length batch))
    (λ t, emit (TargetCriticForward t)) ;;
  emit BuildTdLambdaTargets ;;
  set_q_vals (replicate (max_seq_length batch - 1) None) ;;
  set_running_log initial_running_log ;;
  emit (InitHidden "critic") ;;
  for_each (reverse (seq 0 (max_seq_length batch - 1)))
    (critic_loop_body args batch mask).

(** ** [train] *)

(** Lines 80-83 and 107-110: one policy-gradient step of an actor. *)
Definition actor_step `{Collaborators} (o : optimiser) (batch : EpisodeBatch)
  : M unit :=
  emit (ZeroGrad o) ;;
  emit (Backward o) ;;
  emit (ClipGradNorm o) ;;
  modify_self (λ s,
    let st := match o with
              | AttackerOpt => attacker_optimiser s
              | _ => identifier_optimiser s
              end in
    let mo := actor_update o batch (mac s) st in
    with_actor o mo.1 mo.2 s) ;;
  emit (OptimStep o).

Definition _update_targets `{Collaborators} : M unit :=
  modify_self (λ s, with_targets (mac s) (target_critic s) s) ;;
  emit (LoadState "target_mac") ;;
  modify_self (λ s, with_targets (target_mac s) (critic s) s) ;;
  emit (LoadState "target_critic") ;;
  emit (ConsoleInfo "Updated target network").

(** [elapsed / interval >= 1.0]. *)
Definition cadence_due (elapsed interval : Z) : result bool :=
  q ← py_truediv elapsed interval;
  mret (Qle_bool 1 q).

(** Lines 112-118: the two cadence checks. *)
Definition train_target_sync `{Collaborators} (args : Args) (episode_num : Z)
  : M unit :=
  s ← get_self;
  last_step ← lift (getattr "last_target_update_step" (last_target_update_step s));
  due ← lift (cadence_due (critic_training_steps s - last_step)
                          (target_update_interval args));
  (if due : bool then
     _update_targets ;;
     modify_self (λ s,
       with_counters (last_target_update_episode s)
         (critic_training_steps s)
         (Some (critic_training_steps s)) (log_stats_t s) s)
   else mret ()) ;;
  s ← get_self;
  due ← lift (cadence_due (episode_num - last_target_update_episode s)
                          (target_update_interval args));
  (if due : bool then
     _update_targets ;;
     modify_self (λ s,
       with_counters episode_num (critic_training_steps s)
         (last_target_update_step s) (log_stats_t s) s)
   else mret ()).

(** Lines 120-125: the metric-logging block. *)
Definition train_log `{Collaborators} (args : Args) (t_env : Z) : M unit :=
  s ← get_self;
  if learner_log_interval args <=? t_env - log_stats_t s then
    emit (LogStat "identifier_actor_loss" t_env) ;;
    emit (LogStat "identifier_grad_norm" t_env) ;;
    emit (LogStat "attacker_actor_loss" t_env) ;;
    emit (LogStat "attacker_grad_norm" t_env) ;;
    modify_self (λ s,
      with_counters (last_target_update_episode s)
        (critic_training_steps s) (last_target_update_step s) t_env s)
  else mret ().

(** Lines 41-125. [attacker_outs] holds one output of the controller per
    step, so [attacker_outs[0]] exists when the batch has a step. *)
Definition train `{Collaborators} (args : Args) (batch : EpisodeBatch)
    (t_env episode_num : Z) : M unit :=
  let bs := batch_size batch in
  let b_len := max_seq_length batch in
  let attacker_actions := slice_init <$> attacker_action batch in
  attacker_actions ← _parse_attacker_actions args attacker_actions;
  let mask := train_mask batch in
  cloned ← lift (tensor_call "clone" mask);
  let critic_mask := repeat_last (n_agents args) cloned in
  _train_critic args batch critic_mask ;;
  (* estimated Q-values *)
  emit (InitHidden "mac") ;;
  for_each (seq 0 (max_seq_length batch)) (λ t, emit (MacForward t)) ;;
  (* identifier actor *)
  identifier_mask ← lift (tensor_call "clone" mask);
  emit (LossOver IdentifierOpt (tensor_sum mask)) ;;
  actor_step IdentifierOpt batch ;;
  (* attacker actor *)
  attacker_out0 ← lift (getitem (seq 0 (max_seq_length batch)) 0);
  let total_msgs_num := (num_malicious args * max_message_num_per_round args)%nat in
  attacker_mask ← lift (tensor_call "clnoe" mask);
  emit (LossOver AttackerOpt (tensor_sum mask)) ;;
  actor_step AttackerOpt batch ;;
  train_target_sync args episode_num ;;
  train_log args t_env.

(** ** Persistence: [save_models] and [load_models] *)

Definition th_save `{Collaborators} (f : file Mac Critic Optim) (path : string)
    (fs : gmap string (file Mac Critic Optim))
  : gmap string (file Mac Critic Optim) :=
  <[path := f]> fs.

Definition th_load `{Collaborators} (path : string)
    (fs : gmap string (file Mac Critic Optim))
  : result (file Mac Critic Optim) :=
  match fs !! path with
  | Some f => Ok f
  | None => Raise (FileNotFoundError path)
  end.

(** [load_state_dict] of a critic and of an optimiser. *)
Definition critic_state_of `{Collaborators} (f : file Mac Critic Optim)
  : result Critic :=
  match f with
  | FState c => Ok c
  | _ => Raise (RuntimeError "load_state_dict")
  end.

Definition optim_state_of `{Collaborators} (f : file Mac Critic Optim)
  : result Optim :=
  match f with
  | FOptim o => Ok o
  | _ => Raise (RuntimeError "load_state_dict")
  end.

Definition save_models `{Collaborators} (path : string) (s : SeparateLearner)
    (fs : gmap string (file Mac Critic Optim))
  : gmap string (file Mac Critic Optim) :=
  let fs := mac_save_models (mac s) path fs in
  let fs := th_save (FState (critic s)) (path +:+ "/critic.th") fs in
  let fs := th_save (FState (target_critic s)) (path +:+ "/tar_critic.th") fs in
  let fs := th_save (FOptim (identifier_optimiser s))
              (path +:+ "/identifier_critic_opt.th") fs in
  let fs := th_save (FOptim (critic_optimiser s)) (path +:+ "/critic_opt.th") fs in
  th_save (FOptim (attacker_optimiser s)) (path +:+ "/attacker_opt.th") fs.

Definition with_optimisers `{Collaborators} (id_opt att_opt cr_opt : Optim)
    (s : SeparateLearner) : SeparateLearner :=
  {| mac := mac s; target_mac := target_mac s;
     critic := critic s; target_critic := target_critic s;
     identifier_optimiser := id_opt;
     attacker_optimiser := att_opt;
     critic_optimiser := cr_opt;
     last_target_update_episode := last_target_update_episode s;
     critic_training_steps := critic_training_steps s;
     last_target_update_step := last_target_update_step s;
     log_stats_t := log_stats_t s |}.

Definition load_models `{Collaborators} (path : string)
    (fs : gmap string (file Mac Critic Optim)) : M unit :=
  s ← get_self;
  m ← lift (mac_load_models (mac s) path fs);
  set_self (with_actor CriticOpt m (critic_optimiser s) s) ;;
  s ← get_self;
  tm ← lift (mac_load_models (target_mac s) path fs);
  set_self (with_targets tm (target_critic s) s) ;;
  c ← lift (th_load (path +:+ "/critic.th") fs ≫= critic_state_of);
  s ← get_self;
  set_self (with_critic c (critic_optimiser s) s) ;;
  tc ← lift (th_load (path +:+ "/tar_critic.th") fs ≫= critic_state_of);
  s ← get_self;
  set_self (with_targets (target_mac s) tc s) ;;
  io ← lift (th_load (path +:+ "/identifier_opt.th") fs ≫= optim_state_of);
  s ← get_self;
  set_self (with_optimisers io (attacker_optimiser s) (critic_optimiser s) s) ;;
  ao ← lift (th_load (path +:+ "/attacker_opt.th") fs ≫= optim_state_of);
  s ← get_self;
  set_self (with_optimisers (identifier_optimiser s) ao (critic_optimiser s) s) ;;
  co ← lift (th_load (path +:+ "/critic_opt.th") fs ≫= optim_state_of);
  s ← get_self;
  set_self (with_optimisers (identifier_optimiser s) (attacker_optimiser s) co s).

(** ** The graph-attention agent: [DGNAgent._get_input_shape] *)

(** [scheme["obs"]["vshape"]] and [scheme["actions_onehot"]["vshape"]]. *)
Record Scheme : Type := {
  obs_vshape : nat;
  actions_onehot_vshape : list nat;
}.

(** The attributes of a [DGNAgent] that [_get_input_shape] reads. *)
Record DGNAgent : Type := {
  agent_args : Args;
  agent_n_agents : option nat;
}.

(** The agent at line 57, where [__init__] calls [_get_input_shape]: it
    has assigned [self.args] and nothing else. *)
Definition DGNAgent_new (args : Args) : DGNAgent :=
  {| agent_args := args; agent_n_agents := None |}.

Definition _get_input_shape (agent : DGNAgent) (scheme : Scheme) : result nat :=
  let input_shape := obs_vshape scheme in
  input_shape ←
    (if obs_last_action (agent_args agent) then
       d ← getitem (actions_onehot_vshape scheme) 0;
       mret (input_shape + d)%nat
     else mret input_shape);
  input_shape ←
    (if obs_agent_id (agent_args agent) then
       n ← getattr "n_agents" (agent_n_agents agent);
       mret (input_shape + n)%nat
     else mret input_shape);
  input_shape ←
    (if String.eqb (type (agent_args agent)) "pq" then
       n ← getattr "n_agents" (agent_n_agents agent);
       n' ← getattr "n_agents" (agent_n_agents agent);
       mret (input_shape + n * n' * 2)%nat
     else mret input_shape);
  mret input_shape.

(** The width the specification documents. *)
Definition documented_input_shape (args : Args) (scheme : Scheme) : nat :=
  (obs_vshape scheme
   + (if obs_last_action args then default 0 (head (actions_onehot_vshape scheme)) else 0)
   + (if obs_agent_id args then n_agents args else 0)
   + (if String.eqb (type args) "pq" then 2 * (n_agents args * n_agents args) else 0))%nat.

(** ** The graph-attention agent: [AttModel.forward] *)

Section Attention.
Local Open Scope R_scope.

(** [nn.Linear]: one weight row and one bias per output feature. *)
Record Linear : Type := {
  weight : list (list R);
  bias : list R;
}.

Definition sum_R (x : list R) : R := foldr Rplus 0 x.

Definition dot (a b : list R) : R := sum_R (zip_with Rmult a b).

Definition linear (l : Linear) (x : list R) : list R :=
  zip_with (λ w b, dot w x + b) (weight l) (bias l).

Definition relu (x : R) : R := Rmax 0 x.

(** [F.relu(fc(x))] on every node of one batch element. *)
Definition project (l : Linear) (x : list (list R)) : list (list R) :=
  (λ row : list R, relu <$> linear l row) <$> x.

Record AttModel : Type := {
  fcv : Linear;
  fck : Linear;
  fcq : Linear;
  fcout : Linear;
}.

(** [torch.bmm(q, k)] for [k] permuted: entry [i, j] is the dot product
    of row [i] of [q] with row [j] of the unpermuted [k]. *)
Definition bmm_qk (q k : list (list R)) : list (list R) :=
  (λ q_i : list R, (λ k_j : list R, dot q_i k_j) <$> k) <$> q.

(** [torch.mul(s, mask) - 9e15 * (1 - mask)]. *)
Definition masked_logits (s mask : list (list R)) : list (list R) :=
  zip_with (zip_with (λ s_ij m_ij, s_ij * m_ij - 9e15 * (1 - m_ij))) s mask.

(** [F.softmax(_, dim=2)] on one row. *)
Definition softmax (row : list R) : list R :=
  (λ s : R, exp s / sum_R (exp <$> row)) <$> row.

(** The attention weights [att] of line 35. *)
Definition attention (a : AttModel) (x mask : list (list R)) : list (list R) :=
  let q := project (fcq a) x in
  let k := project (fck a) x in
  softmax <$> masked_logits (bmm_qk q k) mask.

(** [torch.bmm(att, v)]: row [i] is the sum of the rows of [v] weighted
    by row [i] of [att]. *)
Definition weighted_rows (att_i : list R) (v : list (list R)) (width : nat)
  : list R :=
  foldr (zip_with Rplus) (replicate width 0)
        (zip_with (λ a (v_j : list R), Rmult a <$> v_j) att_i v).

Definition forward (a : AttModel) (x mask : list (list R)) : list (list R) :=
  let v := project (fcv a) x in
  let att := attention a x mask in
  let out := (λ att_i : list R, weighted_rows att_i v (length (bias (fcv a))))
             <$> att in
  project (fcout a) out.


End Attention.

(** ** Example data *)

(** Modelled from the spec: the one-hot decoder
    [components.action_selectors.rev_onehot] is outside the slice; section
    6 gives its contract, "mapping a one-hot (or near one-hot) numeric
    vector to its argmax category index". The first largest entry wins. *)
Fixpoint argmax_from (best : Q) (best_i i : nat) (x : list Q) : nat :=
  match x with
  | [] => best_i
  | v :: x' =>
      if Qle_bool v best then argmax_from best best_i (S i) x'
      else argmax_from v i (S i) x'
  end.

Definition argmax (x : list Q) : Z :=
  match x with
  | [] => 0
  | v :: x' => Z.of_nat (argmax_from v 0 1 x')
  end.

(** Collaborators whose states are step counters: an update adds one, the
    controller persists itself in [agent.th]. *)
Definition toy_collaborators : Collaborators :=
  {| Mac := nat;
     Critic := nat;
     Optim := nat;
     rev_onehot := argmax;
     critic_update := λ _ _ c o, (S c, S o);
     actor_update := λ _ _ m o, (S m, S o);
     mac_save_models := λ m path fs, <[path +:+ "/agent.th" := FMac m]> fs;
     mac_load_models := λ _ path fs,
       match fs !! (path +:+ "/agent.th") with
       | Some (FMac m) => Ok m
       | Some _ => Raise (RuntimeError "load_state_dict")
       | None => Raise (FileNotFoundError (path +:+ "/agent.th"))
       end |}.

(** One malicious peer sending one message per round to two peers. *)
Definition toy_args : Args :=
  {| n_peers := 2;
     n_agents := 2;
     num_malicious := 1;
     max_message_num_per_round := 1;
     max_view_num := 2;
     max_seq_num := 2;
     total_client_vals := 2;
     target_update_interval := 200;
     learner_log_interval := 100;
     obs_last_action := false;
     obs_agent_id := true;
     type := "dgn" |}.

(** A message of the documented width, [msg_width toy_args = 23]: type 3,
    sender 0, view 1, sequence 0, value 1, receiver 1, certificate
    naming the first peer only. *)
Definition toy_msg : list Q :=
  [0; 0; 0; 1; 0; 0; 0; 0; 0; 0;  1;  0; 1;  1; 0;  0; 1;  0; 1;
   1; 0;  0; 1]%Q.

(** The same message without its last certificate pair. *)
Definition short_msg : list Q := take 21 toy_msg.

(** One episode in a batch of four steps: it terminates at step 1, step 2
    holds its last observation and step 3 is padding. *)
Definition toy_batch : EpisodeBatch :=
  {| batch_size := 1;
     max_seq_length := 4;
     filled := [[1; 1; 1; 0]];
     terminated := [[0; 1; 0; 0]];
     attacker_action := [[toy_msg; toy_msg; toy_msg; toy_msg]] |}.

(** An episode that is padding only. *)
Definition padded_batch : EpisodeBatch :=
  {| batch_size := 1;
     max_seq_length := 4;
     filled := [[0; 0; 0; 0]];
     terminated := [[0; 0; 0; 0]];
     attacker_action := [[toy_msg; toy_msg; toy_msg; toy_msg]] |}.

(** The episode of [toy_batch] with recorded messages that carry one
    certificate pair. *)
Definition short_batch : EpisodeBatch :=
  {| batch_size := 1;
     max_seq_length := 4;
     filled := [[1; 1; 1; 0]];
     terminated := [[0; 1; 0; 0]];
     attacker_action := [[short_msg; short_msg; short_msg; short_msg]] |}.

Definition toy_learner : @SeparateLearner toy_collaborators :=
  @init toy_collaborators toy_args 0%nat 0%nat 0%nat 0%nat 0%nat 0%nat.

Definition toy_world : @world toy_collaborators :=
  {| self := toy_learner; calls := []; q_vals := []; running_log := ∅ |}.

(** An attention block of width 1 whose four layers are zero, one
    agent that may attend to nobody, and two agents that attend only to
    themselves. *)
Definition zero_linear : Linear := {| weight := [[0%R]]; bias := [0%R] |}.

Definition zero_att : AttModel :=
  {| fcv := zero_linear; fck := zero_linear;
     fcq := zero_linear; fcout := zero_linear |}.


Definition pair_x : list (list R) := [[0%R]; [0%R]].
Definition pair_mask : list (list R) := [[1%R; 0%R]; [0%R; 1%R]].

(** A learner whose networks and optimisers have been trained. *)
Definition trained_learner : @SeparateLearner toy_collaborators :=
  with_counters 0 12 None (-101)
    (@init toy_collaborators toy_args 1%nat 7%nat 8%nat 3%nat 4%nat 5%nat).

(** The store in which the critic loop of [toy_batch] starts. *)
Definition toy_loop_world : @world toy_collaborators :=
  {| self := toy_learner; calls := [];
     q_vals := [None; None; None];
     running_log := initial_running_log |}.

(** ** Vocabulary of the statements about [train] *)

(** The calls that [train] makes from the attacker's optimiser step on:
    that step, the target synchronisation and the metric logging. *)
Definition late_event (ev : event) : bool :=
  match ev with
  | LossOver AttackerOpt _ | ZeroGrad AttackerOpt | Backward AttackerOpt
  | ClipGradNorm AttackerOpt | OptimStep AttackerOpt => true
  | LoadState _ | ConsoleInfo _ | LogStat _ _ => true
  | _ => false
  end.

(** [w'] is reached from [w] without any of these calls and with the
    attributes they assign unchanged. *)
Definition before_attacker_update `{Collaborators} (w w' : world) : Prop :=
  (∃ evs, calls w' = calls w ++ evs
          ∧ Forall (λ ev, late_event ev = false) evs)
  ∧ attacker_optimiser (self w') = attacker_optimiser (self w)
  ∧ target_mac (self w') = target_mac (self w)
  ∧ target_critic (self w') = target_critic (self w)
  ∧ last_target_update_step (self w') = last_target_update_step (self w)
  ∧ last_target_update_episode (self w') = last_target_update_episode (self w)
  ∧ log_stats_t (self w') = log_stats_t (self w).

(** Step [t] has a nonzero validity-mask sum (the test of line 156). *)
Definition step_valid (mask : list (list (list Z))) (t : nat) : bool :=
  match column t mask with
  | Ok mask_t => negb (tensor_sum mask_t =? 0)
  | Raise _ => false
  end.

Definition any_valid_step (args : Args) (batch : EpisodeBatch) : bool :=
  existsb (step_valid (repeat_last (n_agents args) (train_mask batch)))
          (seq 0 (max_seq_length batch - 1)).

(** The exception the specification names for a batch. *)
Definition claimed_exception (args : Args) (batch : EpisodeBatch) : exn :=
  if any_valid_step args batch then NameError "targets_t"
  else AttributeError "clnoe".

(** A computation that, from any store, stays before the attacker
    update; one that returns normally from any store; one that raises [e]
    from any store; one that raises without passing the attacker
    update. *)
Definition stays_before `{Collaborators} {A} (m : M A) : Prop :=
  ∀ w, before_attacker_update w (m w).2.



Definition fails_before `{Collaborators} {A} (m : M A) : Prop :=
  ∀ w, before_attacker_update w (m w).2 ∧ ∃ e, (m w).1 = Raise e.

(** ** Vocabulary of the further properties *)

(** The entry [x[b][t][m]] of a three-axis tensor, if it exists. *)
Definition get3 {A} (x : list (list (list A))) (b t m : nat) : option A :=
  match x !! b with
  | Some ep =>
      match ep !! t with
      | Some row => row !! m
      | None => None
      end
  | None => None
  end.

(** [x] has shape [bs, t_len, n]. *)
Definition shape3 {A} (bs t_len n : nat) (x : list (list (list A))) : Prop :=
  length x = bs
  ∧ Forall (λ ep : list (list A),
              length ep = t_len ∧ Forall (λ row, length row = n) ep) x.

(** The width of the six categorical segments of a message. *)
Definition fields_width (args : Args) : nat :=
  (10 + num_malicious args + max_view_num args + max_seq_num args
   + total_client_vals args + n_peers args)%nat.

(** [num_malicious * max_message_num_per_round], the message slots of a
    step. *)
Definition total_msgs (args : Args) : nat :=
  (num_malicious args * max_message_num_per_round args)%nat.

(** The store [w] after the calls [evs]. *)
Definition with_calls `{Collaborators} (evs : list event) (w : world) : world :=
  {| self := self w; calls := calls w ++ evs;
     q_vals := q_vals w; running_log := running_log w |}.

(** The store in which the backward-time loop of [_train_critic] starts
    (lines 131-152). *)
Definition critic_loop_start `{Collaborators} (batch : EpisodeBatch) (w : world)
  : world :=
  {| self := self w;
     calls := calls w
              ++ [InitHidden "target_critic"]
              ++ (TargetCriticForward <$> seq 0 (max_seq_length batch))
              ++ [BuildTdLambdaTargets; InitHidden "critic"];
     q_vals := replicate (max_seq_length batch - 1) None;
     running_log := initial_running_log |}.






(** The calls of one [_update_targets]. *)
Definition sync_calls : list event :=
  [LoadState "target_mac"; LoadState "target_critic";
   ConsoleInfo "Updated target network"].

(** The calls of the metric-logging block at [t_env]. *)
Definition log_calls (t_env : Z) : list event :=
  [LogStat "identifier_actor_loss" t_env; LogStat "identifier_grad_norm" t_env;
   LogStat "attacker_actor_loss" t_env; LogStat "attacker_grad_norm" t_env].

(** * Properties *)

(** ** The certificate decoder *)

Lemma list_rev_onehot_loop_ok (x : list Q) (idxs : list nat) (ret : list Z) :
  Forall (λ idx, (2 * idx < length x)%nat) idxs →
  list_rev_onehot_loop x ret idxs
  = Ok (ret ++ ((λ idx, chosen_flag (default 0%Q (x !! (2 * idx)%nat))) <$> idxs)).
Proof.
  revert ret. induction idxs as [|idx idxs IH]; intros ret Hall.
  - simpl. by rewrite app_nil_r.
  - inversion Hall as [|? ? Hidx Hrest]; subst.
    cbn [list_rev_onehot_loop]. unfold list_rev_onehot_step, getitem.
    destruct (lookup_lt_is_Some_2 x (2 * idx)%nat Hidx) as [v Hv].
    rewrite Hv. cbn [mbind result_bind mret result_ret].
    rewrite fmap_cons, Hv. unfold chosen_flag at 1. cbn [default].
    change (Datatypes.id v) with v.
    destruct (Qeq_bool v 1); cbn [mbind result_bind mret result_ret];
      rewrite IH by done; by rewrite <- app_assoc.
Qed.

Lemma seq_half_in_range (n : nat) :
  Forall (λ idx, (2 * idx < n)%nat) (seq 0 (n / 2)%nat).
Proof.
  apply Forall_forall. intros idx Hin.
  apply elem_of_seq in Hin.
  pose proof (Nat.div_mod_eq n 2) as Hdiv.
  pose proof (Nat.mod_upper_bound n 2).
  lia.
Qed.

Lemma list_rev_onehot_spec (x : list Q) :
  list_rev_onehot x
  = Ok ((λ idx, chosen_flag (default 0%Q (x !! (2 * idx)%nat)))
          <$> seq 0 (length x / 2)%nat).
Proof.
  unfold list_rev_onehot.
  rewrite list_rev_onehot_loop_ok by apply seq_half_in_range. done.
Qed.

Lemma to_pairs_length (n : nat) (x : list Q) :
  length x = (2 * n)%nat →
  length (to_pairs x) = n ∧ flatten_pairs (to_pairs x) = x.
Proof.
  revert x. induction n as [|n IH]; intros x Hlen.
  - destruct x; [done | simpl in Hlen; lia].
  - destruct x as [|a [|b x']]; simpl in Hlen; try lia.
    destruct (IH x') as [Hl Hf]; [lia|]. split.
    + cbn [to_pairs length]. by rewrite Hl.
    + cbn [to_pairs]. unfold flatten_pairs in *.
      rewrite fmap_cons. cbn [concat]. by rewrite Hf.
Qed.

Lemma flatten_pairs_length (ps : list (Q * Q)) :
  length (flatten_pairs ps) = (2 * length ps)%nat.
Proof.
  induction ps as [|p ps IH]; [done|].
  unfold flatten_pairs in *. rewrite fmap_cons. cbn [concat].
  rewrite length_app, IH. simpl. lia.
Qed.

Lemma flatten_pairs_lookup (ps : list (Q * Q)) (i : nat) :
  flatten_pairs ps !! (2 * i)%nat = fst <$> ps !! i.
Proof.
  revert i. induction ps as [|p ps IH]; intros i; [done|].
  destruct i as [|i]; [done|].
  replace (2 * S i)%nat with (S (S (2 * i))) by lia.
  unfold flatten_pairs in *. rewrite fmap_cons. cbn [concat].
  apply IH.
Qed.

Lemma list_rev_onehot_pairs (ps : list (Q * Q)) :
  list_rev_onehot (flatten_pairs ps) = Ok ((λ p, chosen_flag p.1) <$> ps).
Proof.
  rewrite list_rev_onehot_spec. f_equal.
  rewrite flatten_pairs_length.
  replace (2 * length ps / 2)%nat with (length ps)
    by (symmetry; rewrite Nat.mul_comm; apply Nat.div_mul; lia).
  apply list_eq. intros i.
  rewrite !list_lookup_fmap.
  destruct (decide (i < length ps)%nat) as [Hi|Hi].
  - rewrite lookup_seq_lt by done.
    change (0 + i)%nat with i. cbn [fmap option_fmap option_map].
    rewrite flatten_pairs_lookup.
    destruct (lookup_lt_is_Some_2 ps i Hi) as [p Hp]. by rewrite Hp.
  - rewrite lookup_seq_ge by lia.
    rewrite (lookup_ge_None_2 ps) by lia. done.
Qed.

(** C10. For every input [x], [list_rev_onehot] returns (it never raises)
    a list of length [len(x) // 2]; its element [i] is 1 when [x[2*i]]
    equals 1 and 0 otherwise, so a near-one value decodes to 0; the
    trailing element of an input of odd length is ignored. *)
Theorem list_rev_onehot_correct (x : list Q) :
  ∃ ret,
    list_rev_onehot x = Ok ret
    ∧ length ret = (length x / 2)%nat
    ∧ (∀ i, (i < length x / 2)%nat →
         ∃ v, x !! (2 * i)%nat = Some v
              ∧ ret !! i = Some (if Qeq_bool v 1 then 1 else 0))
    ∧ (∀ y, Nat.Even (length x) → list_rev_onehot (x ++ [y]) = Ok ret).
Proof.
  eexists. split; [apply list_rev_onehot_spec|].
  split; [by rewrite length_fmap, length_seq|].
  split.
  - intros i Hi.
    pose proof (seq_half_in_range (length x)) as Hall.
    rewrite Forall_forall in Hall.
    assert (2 * i < length x)%nat as Hlt
      by (apply Hall, elem_of_seq; lia).
    destruct (lookup_lt_is_Some_2 x _ Hlt) as [v Hv].
    exists v. split; [done|].
    rewrite list_lookup_fmap, lookup_seq_lt by done.
    change (0 + i)%nat with i. cbn [fmap option_fmap option_map].
    by rewrite Hv.
  - intros y [k Hk].
    rewrite list_rev_onehot_spec. f_equal.
    rewrite length_app. cbn [length].
    replace ((length x + 1) / 2)%nat with (length x / 2)%nat.
    2:{ rewrite Hk. replace (2 * k + 1)%nat with (1 + k * 2)%nat by lia.
        rewrite Nat.div_add by lia. rewrite Nat.mul_comm, Nat.div_mul by lia.
        done. }
    apply list_fmap_ext. intros j idx Hj.
    apply lookup_seq in Hj as [-> Hlt].
    rewrite lookup_app_l; [done|].
    rewrite Hk in Hlt |- *.
    rewrite Nat.mul_comm, Nat.div_mul in Hlt by lia. lia.
Qed.

(** The statement of C10 at an input of odd length that starts with a
    near-one value. *)
Lemma list_rev_onehot_correct_witness :
  ∃ ret,
    list_rev_onehot [0.999; 1; 1; 0; 1]%Q = Ok ret
    ∧ length ret = 2%nat
    ∧ (∀ i, (i < 2)%nat →
         ∃ v, [0.999; 1; 1; 0; 1]%Q !! (2 * i)%nat = Some v
              ∧ ret !! i = Some (if Qeq_bool v 1 then 1 else 0))
    ∧ (∀ y, Nat.Even 5 → list_rev_onehot ([0.999; 1; 1; 0; 1]%Q ++ [y]) = Ok ret).
Proof. exact (list_rev_onehot_correct [0.999; 1; 1; 0; 1]%Q). Defined.

Example list_rev_onehot_near_one :
  list_rev_onehot [0.999; 1; 1; 0; 1]%Q = Ok [0; 1].
Proof. reflexivity. Qed.

(** ** The per-message decoder *)

Lemma slice_take_drop {A} (a w : nat) (x : list A) :
  slice a (a + w) x = take w (drop a x).
Proof.
  unfold slice. rewrite take_drop_commute.
  by replace (a + w - a)%nat with w by lia.
Qed.

Lemma length_take_drop_exact {A} (a w : nat) (x : list A) :
  (a + w ≤ length x)%nat → length (take w (drop a x)) = w.
Proof. intros. rewrite length_take, length_drop. lia. Qed.

Lemma segment_app {A} (a w : nat) (x : list A) :
  take w (drop a x) ++ drop (a + w) x = drop a x.
Proof. by rewrite <- drop_drop, take_drop. Qed.

(** C3. The decode of a message vector never raises: it applies the
    one-hot decoder to the slices of widths 10, [num_malicious],
    [max_view_num], [max_seq_num], [total_client_vals] and [n_peers],
    taken left to right in this order, and decodes what remains as
    certificate pairs. A vector of the documented width splits, without
    overlap or remainder, into the segments type, sender, view, sequence,
    value, receiver and [n_peers] certificate pairs; the decode returns
    the category index that the decoder gives for each of the six
    segments, and for each pair the flag 1 when its first entry is 1 and
    0 otherwise. *)
Theorem parse_input_message_segments `{Collaborators} (args : Args)
    (msg_input : list Q) :
  (∃ cert,
     _parse_input_message args msg_input
     = Ok {| msg_fields :=
               [rev_onehot (slice 0 10 msg_input);
                rev_onehot (slice 10 (10 + num_malicious args) msg_input);
                rev_onehot (slice (10 + num_malicious args)
                              (10 + num_malicious args + max_view_num args)
                              msg_input);
                rev_onehot (slice (10 + num_malicious args + max_view_num args)
                              (10 + num_malicious args + max_view_num args
                               + max_seq_num args) msg_input);
                rev_onehot (slice (10 + num_malicious args + max_view_num args
                                   + max_seq_num args)
                              (10 + num_malicious args + max_view_num args
                               + max_seq_num args + total_client_vals args)
                              msg_input);
                rev_onehot (slice (10 + num_malicious args + max_view_num args
                                   + max_seq_num args + total_client_vals args)
                              (10 + num_malicious args + max_view_num args
                               + max_seq_num args + total_client_vals args
                               + n_peers args) msg_input)];
             msg_certificate := cert |}
     ∧ list_rev_onehot
         (slice_from (10 + num_malicious args + max_view_num args
                      + max_seq_num args + total_client_vals args
                      + n_peers args) msg_input) = Ok cert)
  ∧ (length msg_input = msg_width args →
     ∃ (ty sender view seqn val receiver : list Q) (pairs : list (Q * Q)),
       msg_input
       = ty ++ sender ++ view ++ seqn ++ val ++ receiver ++ flatten_pairs pairs
       ∧ length ty = 10%nat
       ∧ length sender = num_malicious args
       ∧ length view = max_view_num args
       ∧ length seqn = max_seq_num args
       ∧ length val = total_client_vals args
       ∧ length receiver = n_peers args
       ∧ length pairs = n_peers args
       ∧ _parse_input_message args msg_input
         = Ok {| msg_fields :=
                   [rev_onehot ty; rev_onehot sender; rev_onehot view;
                    rev_onehot seqn; rev_onehot val; rev_onehot receiver];
                 msg_certificate :=
                   (λ p, if Qeq_bool p.1 1 then 1 else 0) <$> pairs |}).
Proof.
  split.
  { eexists. split; [|apply list_rev_onehot_spec].
    unfold _parse_input_message. cbv zeta.
    by rewrite list_rev_onehot_spec. }
  intros Hlen. unfold msg_width in Hlen.
  set (i1 := 10%nat).
  set (i2 := (i1 + num_malicious args)%nat).
  set (i3 := (i2 + max_view_num args)%nat).
  set (i4 := (i3 + max_seq_num args)%nat).
  set (i5 := (i4 + total_client_vals args)%nat).
  set (i6 := (i5 + n_peers args)%nat).
  destruct (to_pairs_length (n_peers args) (drop i6 msg_input)) as [Hpl Hpf].
  { rewrite length_drop. subst i1 i2 i3 i4 i5 i6. lia. }
  exists (take 10 msg_input), (take (num_malicious args) (drop i1 msg_input)),
    (take (max_view_num args) (drop i2 msg_input)),
    (take (max_seq_num args) (drop i3 msg_input)),
    (take (total_client_vals args) (drop i4 msg_input)),
    (take (n_peers args) (drop i5 msg_input)),
    (to_pairs (drop i6 msg_input)).
  split.
  { rewrite Hpf. subst i6. rewrite segment_app.
    subst i5. rewrite segment_app. subst i4. rewrite segment_app.
    subst i3. rewrite segment_app. subst i2. rewrite segment_app.
    subst i1. by rewrite take_drop. }
  split. { rewrite length_take. lia. }
  split. { apply length_take_drop_exact. subst i1. lia. }
  split. { apply length_take_drop_exact. subst i1 i2. lia. }
  split. { apply length_take_drop_exact. subst i1 i2 i3. lia. }
  split. { apply length_take_drop_exact. subst i1 i2 i3 i4. lia. }
  split. { apply length_take_drop_exact. subst i1 i2 i3 i4 i5. lia. }
  split; [done|].
  unfold _parse_input_message. cbv zeta.
  fold i1 i2 i3 i4 i5 i6.
  unfold num_msg_type. fold i1. fold i2 i3 i4 i5 i6.
  unfold i2 at 1, i3 at 1, i4 at 1, i5 at 1, i6 at 1.
  rewrite !slice_take_drop.
  unfold slice at 1. rewrite drop_0.
  unfold slice_from. rewrite <- Hpf at 1.
  rewrite list_rev_onehot_pairs. reflexivity.
Qed.

(** C3 at [toy_msg], whose width is the documented one. *)
Lemma parse_input_message_segments_witness :
  length toy_msg = msg_width toy_args
  ∧ ∃ (ty sender view seqn val receiver : list Q) (pairs : list (Q * Q)),
      toy_msg
      = ty ++ sender ++ view ++ seqn ++ val ++ receiver ++ flatten_pairs pairs
      ∧ length ty = 10%nat
      ∧ length sender = 1%nat
      ∧ length view = 2%nat
      ∧ length seqn = 2%nat
      ∧ length val = 2%nat
      ∧ length receiver = 2%nat
      ∧ length pairs = 2%nat
      ∧ @_parse_input_message toy_collaborators toy_args toy_msg
        = Ok {| msg_fields :=
                  [argmax ty; argmax sender; argmax view;
                   argmax seqn; argmax val; argmax receiver];
                msg_certificate :=
                  (λ p, if Qeq_bool p.1 1 then 1 else 0) <$> pairs |}.
Proof.
  split; [reflexivity|].
  exact (proj2 (@parse_input_message_segments toy_collaborators toy_args
                  toy_msg) eq_refl).
Defined.

Example parse_toy_msg :
  @_parse_input_message toy_collaborators toy_args toy_msg
  = Ok {| msg_fields := [3; 0; 1; 0; 1; 1]; msg_certificate := [1; 0] |}.
Proof. reflexivity. Qed.

(** ** The validity mask *)

Lemma slice_init_length {A} (x : list A) :
  length (slice_init x) = (length x - 1)%nat.
Proof. unfold slice_init. rewrite length_take. lia. Qed.

Lemma slice_init_lookup {A} (x : list A) (i : nat) :
  (i < length x - 1)%nat → slice_init x !! i = x !! i.
Proof. intros Hi. unfold slice_init. by rewrite lookup_take_lt. Qed.

Lemma mask_assign_row_length (mask terminated : list Z) :
  length mask = length terminated →
  length (mask_assign_row mask terminated) = length mask.
Proof.
  intros Hlen. unfold mask_assign_row, slice_from.
  rewrite length_app, length_take, length_zip_with, length_drop,
    slice_init_length. lia.
Qed.

Lemma mask_assign_row_first (mask terminated : list Z) :
  mask_assign_row mask terminated !! 0%nat = mask !! 0%nat.
Proof. unfold mask_assign_row. by destruct mask. Qed.

Lemma mask_assign_row_later (mask terminated : list Z) (t : nat) (m te : Z) :
  mask !! S t = Some m → terminated !! t = Some te →
  (S t < length terminated)%nat →
  mask_assign_row mask terminated !! S t = Some (m * (1 - te)).
Proof.
  intros Hm Hte Hlt. unfold mask_assign_row, slice_from.
  destruct mask as [|m0 mask']; [done|].
  cbn [take drop app]. rewrite take_0, drop_0, app_nil_l.
  change (zip_with (λ m1 te0, m1 * (1 - te0)) mask' (slice_init terminated) !! t
          = Some (m * (1 - te))).
  change (mask' !! t = Some m) in Hm.
  rewrite lookup_zip_with.
  rewrite Hm, slice_init_lookup, Hte by lia. done.
Qed.

Lemma train_mask_row (batch : EpisodeBatch) (b : nat) (frow trow : list Z) :
  filled batch !! b = Some frow → terminated batch !! b = Some trow →
  train_mask batch !! b
  = Some (mask_assign_row (slice_init frow) (slice_init trow)).
Proof.
  intros Hf Ht. unfold train_mask. cbv zeta.
  by rewrite lookup_zip_with, !list_lookup_fmap, Hf, Ht.
Qed.

(** C4, as the code has it. For an episode whose [filled] and
    [terminated] rows have the same length [T], the mask has [T-1] steps;
    its first column is the filled flag of step 0; every later step [t]
    holds [filled[t] * (1 - terminated[t-1])], so the step that follows a
    step whose terminated flag is 1 is masked out, while such a step
    itself keeps its filled flag when the step before it has the flag
    0. *)
Theorem train_mask_lookup (batch : EpisodeBatch) (b : nat) (frow trow : list Z) :
  filled batch !! b = Some frow →
  terminated batch !! b = Some trow →
  length frow = length trow →
  ∃ mrow,
    train_mask batch !! b = Some mrow
    ∧ length mrow = (length frow - 1)%nat
    ∧ mrow !! 0%nat = slice_init frow !! 0%nat
    ∧ (∀ t f te, (S t < length frow - 1)%nat →
         frow !! S t = Some f → trow !! t = Some te →
         mrow !! S t = Some (f * (1 - te)))
    ∧ (∀ t f, (S t < length frow - 1)%nat →
         frow !! S t = Some f → trow !! t = Some 1 →
         mrow !! S t = Some 0)
    ∧ (∀ t f, (S t < length frow - 1)%nat →
         frow !! S t = Some f → trow !! t = Some 0 →
         mrow !! S t = Some f).
Proof.
  intros Hf Ht Hlen.
  assert (∀ t f te, (S t < length frow - 1)%nat →
            frow !! S t = Some f → trow !! t = Some te →
            mask_assign_row (slice_init frow) (slice_init trow) !! S t
            = Some (f * (1 - te))) as Hlater.
  { intros t f te Hlt Hfs Hte.
    apply mask_assign_row_later.
    - by rewrite slice_init_lookup.
    - rewrite slice_init_lookup; [done | lia].
    - rewrite slice_init_length. lia. }
  eexists. split; [by apply train_mask_row|].
  split. { rewrite mask_assign_row_length; rewrite !slice_init_length; lia. }
  split; [apply mask_assign_row_first|].
  split; [exact Hlater|].
  split; intros t f Hlt Hfs Hte.
  - rewrite (Hlater t f 1) by done. f_equal. lia.
  - rewrite (Hlater t f 0) by done. f_equal. lia.
Qed.

(** C4 at the episode of [toy_batch]. *)
Lemma train_mask_lookup_witness :
  filled toy_batch !! 0%nat = Some [1; 1; 1; 0]
  ∧ terminated toy_batch !! 0%nat = Some [0; 1; 0; 0]
  ∧ ∃ mrow,
      train_mask toy_batch !! 0%nat = Some mrow
      ∧ length mrow = 3%nat
      ∧ mrow !! 0%nat = Some 1
      ∧ (∀ t f te, (S t < 3)%nat →
           [1; 1; 1; 0] !! S t = Some f → [0; 1; 0; 0] !! t = Some te →
           mrow !! S t = Some (f * (1 - te)))
      ∧ (∀ t f, (S t < 3)%nat →
           [1; 1; 1; 0] !! S t = Some f → [0; 1; 0; 0] !! t = Some 1 →
           mrow !! S t = Some 0)
      ∧ (∀ t f, (S t < 3)%nat →
           [1; 1; 1; 0] !! S t = Some f → [0; 1; 0; 0] !! t = Some 0 →
           mrow !! S t = Some f).
Proof.
  split; [reflexivity|]. split; [reflexivity|].
  exact (train_mask_lookup toy_batch 0 [1; 1; 1; 0] [0; 1; 0; 0]
           eq_refl eq_refl eq_refl).
Defined.

Example train_mask_toy : train_mask toy_batch = [[1; 1; 0]].
Proof. reflexivity. Qed.

(** C4 as the specification words it fails: in [toy_batch] step 1 is the
    first step whose terminated flag is set, it is not the first column,
    and its mask value is 1. *)
Lemma train_mask_keeps_terminal_step :
  ¬ (∀ b mrow trow,
       train_mask toy_batch !! b = Some mrow →
       (slice_init <$> terminated toy_batch) !! b = Some trow →
       zero_from_termination mrow trow).
Proof.
  intros Hclaim.
  specialize (Hclaim 0%nat [1; 1; 0] [0; 1; 0] eq_refl eq_refl 1%nat 1%nat).
  assert ([1; 1; 0] !! 1%nat = Some 0) as Hbad.
  { apply Hclaim; [reflexivity | lia | lia | simpl; lia]. }
  discriminate Hbad.
Qed.

(** ** The input width of the graph-attention agent *)

(** C6 on the code. When [__init__] calls [_get_input_shape] the agent
    has no attribute [n_agents]: the call raises [AttributeError] as soon
    as [obs_agent_id] is set or the type is ["pq"], and returns the
    observation width, plus the action width when [obs_last_action] is
    set, only when both are off. *)
Theorem get_input_shape_new (args : Args) (scheme : Scheme) :
  _get_input_shape (DGNAgent_new args) scheme
  = if obs_last_action args && bool_decide (actions_onehot_vshape scheme = [])
    then Raise IndexError
    else if obs_agent_id args || String.eqb (type args) "pq"
    then Raise (AttributeError "n_agents")
    else Ok (documented_input_shape args scheme).
Proof.
  unfold _get_input_shape, documented_input_shape, DGNAgent_new, getitem.
  cbn [agent_args agent_n_agents getattr].
  destruct (obs_last_action args), (actions_onehot_vshape scheme) as [|d ds],
    (obs_agent_id args), (String.eqb (type args) "pq");
    cbn; try reflexivity; f_equal; lia.
Qed.

Example get_input_shape_agent_id :
  _get_input_shape (DGNAgent_new toy_args)
    {| obs_vshape := 5; actions_onehot_vshape := [3%nat] |}
  = Raise (AttributeError "n_agents")
  ∧ documented_input_shape toy_args
      {| obs_vshape := 5; actions_onehot_vshape := [3%nat] |} = 7%nat.
Proof. split; reflexivity. Qed.

(** ** Persistence *)

Lemma checkpoint_name_ne (path a b : string) :
  a ≠ b → path +:+ a ≠ path +:+ b.
Proof. intros Hne Heq. by apply (inj (String.app path)) in Heq. Qed.

Lemma save_models_identifier_opt `{Collaborators} (path : string)
    (s : SeparateLearner) (fs : gmap string (file Mac Critic Optim)) :
  save_models path s fs !! (path +:+ "/identifier_opt.th")
  = mac_save_models (mac s) path fs !! (path +:+ "/identifier_opt.th").
Proof.
  unfold save_models, th_save. cbv zeta.
  rewrite !lookup_insert_ne by (by apply checkpoint_name_ne). done.
Qed.

Lemma save_models_critic `{Collaborators} (path : string)
    (s : SeparateLearner) (fs : gmap string (file Mac Critic Optim)) :
  save_models path s fs !! (path +:+ "/critic.th") = Some (FState (critic s)).
Proof.
  unfold save_models, th_save. cbv zeta.
  rewrite !lookup_insert_ne by (by apply checkpoint_name_ne).
  apply lookup_insert_eq.
Qed.

Lemma save_models_tar_critic `{Collaborators} (path : string)
    (s : SeparateLearner) (fs : gmap string (file Mac Critic Optim)) :
  save_models path s fs !! (path +:+ "/tar_critic.th")
  = Some (FState (target_critic s)).
Proof.
  unfold save_models, th_save. cbv zeta.
  rewrite !lookup_insert_ne by (by apply checkpoint_name_ne).
  apply lookup_insert_eq.
Qed.

(** C2 on the code. [save_models] writes the identifier optimiser to
    [identifier_critic_opt.th] and [load_models] reads
    [identifier_opt.th]. When the controller's own save leaves no file of
    that name and its two loads succeed, loading what was just saved
    raises [FileNotFoundError]: the critic and the target critic hold the
    saved parameters, and none of the three optimiser states has been
    restored. *)
Theorem load_after_save_raises `{Collaborators} (path : string)
    (s : SeparateLearner) (fs : gmap string (file Mac Critic Optim))
    (w : world) (m tm : Mac) :
  mac_save_models (mac s) path fs !! (path +:+ "/identifier_opt.th") = None →
  mac_load_models (mac (self w)) path (save_models path s fs) = Ok m →
  mac_load_models (target_mac (self w)) path (save_models path s fs) = Ok tm →
  ∃ w',
    load_models path (save_models path s fs) w
    = (Raise (FileNotFoundError (path +:+ "/identifier_opt.th")), w')
    ∧ critic (self w') = critic s
    ∧ target_critic (self w') = target_critic s
    ∧ identifier_optimiser (self w') = identifier_optimiser (self w)
    ∧ attacker_optimiser (self w') = attacker_optimiser (self w)
    ∧ critic_optimiser (self w') = critic_optimiser (self w).
Proof.
  intros Hfree Hmac Htmac.
  unfold load_models, th_load.
  rewrite save_models_critic, save_models_tar_critic,
    save_models_identifier_opt, Hfree.
  cbv [mbind M_bind get_self set_self lift mret M_ret result_bind
       critic_state_of optim_state_of].
  cbn [self with_actor with_targets with_critic mac target_mac].
  rewrite Hmac. cbn [self with_actor with_targets with_critic mac target_mac].
  rewrite Htmac. eexists. split; [reflexivity|]. cbn. done.
Qed.

(** C2 at a learner saved into an empty directory. *)
Lemma load_after_save_raises_witness :
  ∃ w',
    @load_models toy_collaborators "ckpt"
      (@save_models toy_collaborators "ckpt" trained_learner ∅) toy_world
    = (Raise (FileNotFoundError "ckpt/identifier_opt.th"), w')
    ∧ critic (self w') = critic trained_learner
    ∧ target_critic (self w') = target_critic trained_learner
    ∧ identifier_optimiser (self w') = identifier_optimiser (self toy_world)
    ∧ attacker_optimiser (self w') = attacker_optimiser (self toy_world)
    ∧ critic_optimiser (self w') = critic_optimiser (self toy_world).
Proof.
  exact (@load_after_save_raises toy_collaborators "ckpt" trained_learner ∅
           toy_world 1%nat 1%nat eq_refl eq_refl eq_refl).
Defined.

Example load_after_save_optimisers :
  (@load_models toy_collaborators "ckpt"
     (@save_models toy_collaborators "ckpt" trained_learner ∅) toy_world).1
  = Raise (FileNotFoundError "ckpt/identifier_opt.th")
  ∧ identifier_optimiser trained_learner = 3%nat
  ∧ identifier_optimiser
      (self (@load_models toy_collaborators "ckpt"
               (@save_models toy_collaborators "ckpt" trained_learner ∅)
               toy_world).2) = 0%nat.
Proof. repeat split. Qed.

(** ** The critic's backward-time loop *)

Lemma load_targets_t :
  load_name (_train_critic_locals ++ module_globals) "targets_t"
  = Raise (NameError "targets_t").
Proof. reflexivity. Qed.

Lemma float_div_by_nonzero (d : Z) : d ≠ 0 → float_div_by d = Ok ().
Proof. intros Hd. unfold float_div_by. by apply Z.eqb_neq in Hd as ->. Qed.

Lemma column_raises_IndexError {A} (t : nat) (x : list (list A)) (e : exn) :
  column t x = Raise e → e = IndexError.
Proof.
  unfold column. induction x as [|row x IH]; [done|].
  cbn [mapM].
  destruct (getitem row t) as [a|e'] eqn:Hg; cbn [mbind result_bind].
  - destruct (mapM _ x) eqn:Hrest; cbn [mbind result_bind mret result_ret];
      [done|].
    intros [= <-]. by apply IH.
  - intros [= <-]. unfold getitem in Hg. destruct (row !! t); congruence.
Qed.

(** A skipped step: the [print] of line 155 is all that happens. *)
Lemma critic_loop_body_skip `{Collaborators} (args : Args)
    (batch : EpisodeBatch) (mask : list (list (list Z))) (t : nat)
    (w : world) (mask_t : list (list Z)) :
  column t mask = Ok mask_t → tensor_sum mask_t = 0 →
  critic_loop_body args batch mask t w
  = (Ok (), {| self := self w; calls := calls w ++ [Print "mask_t shape"];
               q_vals := q_vals w; running_log := running_log w |}).
Proof.
  intros Hcol Hsum. unfold critic_loop_body.
  cbv [mbind M_bind lift emit]. by rewrite Hcol, Hsum.
Qed.

(** A step with valid samples: the critic is fitted, the counter is
    incremented, four samples are appended, and reading [targets_t]
    raises. *)
Lemma critic_loop_body_fit `{Collaborators} (args : Args)
    (batch : EpisodeBatch) (mask : list (list (list Z))) (t : nat)
    (w : world) (mask_t : list (list Z)) (l1 l2 l3 l4 l5 : list stat) :
  column t mask = Ok mask_t → tensor_sum mask_t ≠ 0 →
  (t < length (q_vals w))%nat →
  running_log w !! "critic_loss" = Some l1 →
  running_log w !! "critic_grad_norm" = Some l2 →
  running_log w !! "td_error_abs" = Some l3 →
  running_log w !! "q_taken_mean" = Some l4 →
  running_log w !! "target_mean" = Some l5 →
  critic_loop_body args batch mask t w
  = (Raise (NameError "targets_t"),
     {| self :=
          with_counters (last_target_update_episode (self w))
            (critic_training_steps (self w) + 1)
            (last_target_update_step (self w)) (log_stats_t (self w))
            (with_critic
               (critic_update batch t (critic (self w))
                  (critic_optimiser (self w))).1
               (critic_update batch t (critic (self w))
                  (critic_optimiser (self w))).2
               (self w));
        calls := calls w ++ [Print "mask_t shape"; CriticForward t;
                             LossOver CriticOpt (tensor_sum mask_t);
                             ZeroGrad CriticOpt; Backward CriticOpt;
                             ClipGradNorm CriticOpt; OptimStep CriticOpt];
        q_vals := <[t := Some t]> (q_vals w);
        running_log :=
          <["q_taken_mean" := l4 ++ [QTakenMean t]]>
            (<["td_error_abs" := l3 ++ [TdErrorAbs t]]>
               (<["critic_grad_norm" := l2 ++ [GradNorm t]]>
                  (<["critic_loss" := l1 ++ [LossItem t]]> (running_log w))))
     |}).
Proof.
  intros Hcol Hsum Hq H1 H2 H3 H4 H5.
  unfold critic_loop_body.
  cbv [mbind M_bind lift]. rewrite Hcol.
  rewrite load_targets_t, (float_div_by_nonzero _ Hsum).
  apply Z.eqb_neq in Hsum. rewrite Hsum.
  cbv [emit store_q]. cbn [q_vals]. rewrite bool_decide_eq_true_2 by done.
  cbv [set_q_vals modify_self]. cbn [self calls q_vals running_log].
  cbv [running_log_append mbind M_bind get_running_log set_running_log lift
       mret M_ret].
  cbn [self calls q_vals running_log].
  rewrite H1. cbn [self calls q_vals running_log].
  rewrite lookup_insert_ne, H2 by done. cbn [self calls q_vals running_log].
  rewrite !lookup_insert_ne, H3 by done. cbn [self calls q_vals running_log].
  rewrite !lookup_insert_ne, H4 by done. cbn [self calls q_vals running_log].
  rewrite !lookup_insert_ne, H5 by done. cbn [self calls q_vals running_log].
  rewrite <- !app_assoc. reflexivity.
Qed.

(** C8. A step whose mask sum is zero is skipped: the iteration returns
    normally, the learner (its critic, optimiser and step counter), the
    stored Q-values and the running log are unchanged, and no call is
    made but the [print] that precedes the test. No iteration, skipped or
    not, raises [ZeroDivisionError]. *)
Theorem critic_loop_skips_masked_step `{Collaborators} (args : Args)
    (batch : EpisodeBatch) (mask : list (list (list Z))) (t : nat)
    (w : world) (mask_t : list (list Z)) :
  column t mask = Ok mask_t →
  tensor_sum mask_t = 0 →
  critic_loop_body args batch mask t w
  = (Ok (), {| self := self w; calls := calls w ++ [Print "mask_t shape"];
               q_vals := q_vals w; running_log := running_log w |})
  ∧ ∀ t' w', (critic_loop_body args batch mask t' w').1 ≠ Raise ZeroDivisionError.
Proof.
  intros Hcol Hsum. split; [by eapply critic_loop_body_skip|].
  clear. intros t w. unfold critic_loop_body.
  cbv [mbind M_bind lift].
  destruct (column t mask) as [mask_t|e] eqn:Hcol.
  2:{ apply column_raises_IndexError in Hcol as ->. by cbn. }
  cbv [emit]. destruct (tensor_sum mask_t =? 0) eqn:Hsum; [by cbn|].
  apply Z.eqb_neq in Hsum.
  rewrite load_targets_t, (float_div_by_nonzero _ Hsum).
  cbv [store_q]. cbn [q_vals].
  destruct (bool_decide _); [|by cbn].
  cbv [set_q_vals modify_self]. cbn [self calls q_vals running_log].
  cbv [running_log_append mbind M_bind get_running_log set_running_log lift
       mret M_ret].
  cbn [self calls q_vals running_log].
  repeat (match goal with
          | |- context [match ?m !! ?k with _ => _ end] =>
              destruct (m !! k); cbn [self calls q_vals running_log fst]
          end; try done).
Qed.

(** C8 at the last step of [padded_batch], whose mask is zero. *)
Lemma critic_loop_skips_masked_step_witness :
  column 2 (repeat_last 2 (train_mask padded_batch)) = Ok [[0; 0]]
  ∧ tensor_sum [[0; 0]] = 0
  ∧ @critic_loop_body toy_collaborators toy_args padded_batch
      (repeat_last 2 (train_mask padded_batch)) 2 toy_world
    = (Ok (), {| self := toy_learner; calls := [Print "mask_t shape"];
                 q_vals := []; running_log := ∅ |})
  ∧ ∀ t' w', (@critic_loop_body toy_collaborators toy_args padded_batch
                (repeat_last 2 (train_mask padded_batch)) t' w').1
             ≠ Raise ZeroDivisionError.
Proof.
  split; [reflexivity|]. split; [reflexivity|].
  exact (@critic_loop_skips_masked_step toy_collaborators toy_args
           padded_batch (repeat_last 2 (train_mask padded_batch)) 2
           toy_world [[0; 0]] eq_refl eq_refl).
Defined.

(** C9 on the code. A step that is not skipped appends one sample each to
    [critic_loss], [critic_grad_norm], [td_error_abs] and [q_taken_mean],
    four in all, and then raises [NameError] on [targets_t]: nothing is
    appended to [target_mean]. *)
Theorem critic_loop_logs_four_then_raises `{Collaborators} (args : Args)
    (batch : EpisodeBatch) (mask : list (list (list Z))) (t : nat)
    (w : world) (mask_t : list (list Z)) (l1 l2 l3 l4 l5 : list stat) :
  column t mask = Ok mask_t → tensor_sum mask_t ≠ 0 →
  (t < length (q_vals w))%nat →
  running_log w !! "critic_loss" = Some l1 →
  running_log w !! "critic_grad_norm" = Some l2 →
  running_log w !! "td_error_abs" = Some l3 →
  running_log w !! "q_taken_mean" = Some l4 →
  running_log w !! "target_mean" = Some l5 →
  ∃ w',
    critic_loop_body args batch mask t w = (Raise (NameError "targets_t"), w')
    ∧ running_log w' !! "critic_loss" = Some (l1 ++ [LossItem t])
    ∧ running_log w' !! "critic_grad_norm" = Some (l2 ++ [GradNorm t])
    ∧ running_log w' !! "td_error_abs" = Some (l3 ++ [TdErrorAbs t])
    ∧ running_log w' !! "q_taken_mean" = Some (l4 ++ [QTakenMean t])
    ∧ running_log w' !! "target_mean" = Some l5
    ∧ critic_training_steps (self w') = critic_training_steps (self w) + 1.
Proof.
  intros Hcol Hsum Hq H1 H2 H3 H4 H5.
  eexists. split; [by eapply critic_loop_body_fit|].
  cbn [running_log self critic_training_steps with_counters].
  repeat split.
  - by rewrite !lookup_insert_ne, lookup_insert_eq by done.
  - by rewrite !lookup_insert_ne, lookup_insert_eq by done.
  - by rewrite !lookup_insert_ne, lookup_insert_eq by done.
  - by rewrite lookup_insert_eq.
  - by rewrite !lookup_insert_ne by done.
Qed.

(** C9 at step 1 of [toy_batch], the first step the loop does not skip. *)
Lemma critic_loop_logs_four_then_raises_witness :
  ∃ w',
    @critic_loop_body toy_collaborators toy_args toy_batch
      (repeat_last 2 (train_mask toy_batch)) 1 toy_loop_world
    = (Raise (NameError "targets_t"), w')
    ∧ running_log w' !! "critic_loss" = Some [LossItem 1]
    ∧ running_log w' !! "critic_grad_norm" = Some [GradNorm 1]
    ∧ running_log w' !! "td_error_abs" = Some [TdErrorAbs 1]
    ∧ running_log w' !! "q_taken_mean" = Some [QTakenMean 1]
    ∧ running_log w' !! "target_mean" = Some []
    ∧ critic_training_steps (self w') = 1.
Proof.
  apply (@critic_loop_logs_four_then_raises toy_collaborators toy_args
           toy_batch (repeat_last 2 (train_mask toy_batch)) 1 toy_loop_world
           [[1; 1]] [] [] [] [] []);
    [reflexivity | discriminate | simpl; lia | reflexivity..].
Defined.

(** ** Reasoning about runs of [train] *)

Section Runs.
Context `{Collaborators}.

Lemma before_refl (w : world) : before_attacker_update w w.
Proof.
  unfold before_attacker_update. split; [|done].
  exists []. by rewrite app_nil_r.
Qed.

Lemma before_trans (w1 w2 w3 : world) :
  before_attacker_update w1 w2 → before_attacker_update w2 w3 →
  before_attacker_update w1 w3.
Proof.
  intros ((evs1 & Hc1 & He1) & ? & ? & ? & ? & ? & ?)
         ((evs2 & Hc2 & He2) & ? & ? & ? & ? & ? & ?).
  unfold before_attacker_update. split.
  - exists (evs1 ++ evs2). split; [|by apply Forall_app].
    by rewrite Hc2, Hc1, app_assoc.
  - repeat split; congruence.
Qed.

(** A step that leaves [self] and the calls alone stays before. *)
Lemma before_local (w w' : world) :
  self w' = self w → calls w' = calls w → before_attacker_update w w'.
Proof.
  intros Hs Hc. unfold before_attacker_update. rewrite Hs, Hc.
  split; [|done]. exists []. by rewrite app_nil_r.
Qed.

Lemma stays_ret {A} (a : A) : stays_before (mret a).
Proof. intros w. apply before_refl. Qed.

Lemma stays_lift {A} (r : result A) : stays_before (lift r).
Proof. intros w. apply before_refl. Qed.

Lemma stays_bind {A B} (m : M A) (f : A → M B) :
  stays_before m → (∀ a, stays_before (f a)) → stays_before (m ≫= f).
Proof.
  intros Hm Hf w. specialize (Hm w).
  unfold mbind, M_bind. destruct (m w) as [[a|e] w']; [|done].
  eapply before_trans; [exact Hm | apply Hf].
Qed.

Lemma stays_emit (ev : event) :
  late_event ev = false → stays_before (emit ev).
Proof.
  intros Hev w. unfold before_attacker_update. cbn. split; [|done].
  exists [ev]. split; [done|]. by constructor.
Qed.

Lemma stays_modify (g : SeparateLearner → SeparateLearner) :
  (∀ s, attacker_optimiser (g s) = attacker_optimiser s
        ∧ target_mac (g s) = target_mac s
        ∧ target_critic (g s) = target_critic s
        ∧ last_target_update_step (g s) = last_target_update_step s
        ∧ last_target_update_episode (g s) = last_target_update_episode s
        ∧ log_stats_t (g s) = log_stats_t s) →
  stays_before (modify_self g).
Proof.
  intros Hg w. unfold before_attacker_update. cbn. split; [|apply Hg].
  exists []. by rewrite app_nil_r.
Qed.

Lemma stays_for_each {A} (xs : list A) (body : A → M unit) :
  (∀ x, stays_before (body x)) → stays_before (for_each xs body).
Proof.
  intros Hbody. induction xs as [|x xs IH]; cbn [for_each].
  - apply stays_ret.
  - apply stays_bind; [apply Hbody | by intros _].
Qed.

Lemma stays_set_q_vals (q : list (option nat)) : stays_before (set_q_vals q).
Proof. intros w. by apply before_local. Qed.

Lemma stays_set_running_log (log : gmap string (list stat)) :
  stays_before (set_running_log log).
Proof. intros w. by apply before_local. Qed.

Lemma stays_store_q (t : nat) : stays_before (store_q t).
Proof.
  intros w. unfold store_q. destruct (bool_decide _); by apply before_local.
Qed.

Lemma stays_running_log_append (key : string) (arg : M stat) :
  stays_before arg → stays_before (running_log_append key arg).
Proof.
  intros Harg. unfold running_log_append.
  apply stays_bind; [intros w; apply before_refl | intros log].
  apply stays_bind; [apply stays_lift | intros l].
  apply stays_bind; [exact Harg | intros v].
  apply stays_set_running_log.
Qed.

(** Decomposes a sequence of steps, closing each step by its lemma. *)
Ltac stays_steps :=
  repeat first
    [ by apply stays_emit
    | apply stays_store_q
    | apply stays_running_log_append
    | apply stays_ret
    | apply stays_set_q_vals
    | apply stays_set_running_log
    | apply stays_lift
    | by apply stays_modify
    | apply stays_for_each; intros ?
    | apply stays_bind; [|intros ?] ].

Lemma stays_critic_loop_body (args : Args) (batch : EpisodeBatch)
    (mask : list (list (list Z))) (t : nat) :
  stays_before (critic_loop_body args batch mask t).
Proof.
  unfold critic_loop_body.
  apply stays_bind; [apply stays_lift | intros mask_t].
  apply stays_bind; [by apply stays_emit | intros _].
  destruct (tensor_sum mask_t =? 0); [apply stays_ret|].
  stays_steps.
Qed.

Lemma stays_train_critic (args : Args) (batch : EpisodeBatch)
    (mask : list (list (list Z))) :
  stays_before (_train_critic args batch mask).
Proof.
  unfold _train_critic.
  do 6 (apply stays_bind; [stays_steps | intros _]).
  apply stays_for_each. intros t. apply stays_critic_loop_body.
Qed.

Lemma stays_identifier_step (batch : EpisodeBatch) :
  stays_before (actor_step IdentifierOpt batch).
Proof.
  unfold actor_step. stays_steps.
Qed.

Lemma stays_parse_attacker_actions (args : Args)
    (actions : list (list (list Q))) :
  stays_before (_parse_attacker_actions args actions).
Proof.
  unfold _parse_attacker_actions.
  apply stays_bind; [by apply stays_emit | intros _; apply stays_lift].
Qed.

Lemma fails_bind {A B} (m : M A) (f : A → M B) :
  stays_before m → (∀ a, fails_before (f a)) → fails_before (m ≫= f).
Proof.
  intros Hm Hf w. specialize (Hm w).
  unfold mbind, M_bind. destruct (m w) as [[a|e] w'].
  - destruct (Hf a w') as [Hb He]. split; [|done].
    by eapply before_trans.
  - split; [done | by exists e].
Qed.

Lemma fails_raise {A B} (e : exn) (f : A → M B) :
  fails_before (lift (Raise e) ≫= f).
Proof. intros w. split; [apply before_refl | by exists e]. Qed.

Lemma tensor_call_clnoe {A} (x : A) :
  tensor_call "clnoe" x = Raise (AttributeError "clnoe").
Proof. reflexivity. Qed.


(** Every run of [train] raises, and it does so before the attacker
    update. *)
Lemma train_fails_before (args : Args) (batch : EpisodeBatch)
    (t_env episode_num : Z) :
  fails_before (train args batch t_env episode_num).
Proof.
  unfold train. cbv zeta.
  apply fails_bind; [apply stays_parse_attacker_actions | intros _].
  apply fails_bind; [apply stays_lift | intros cloned].
  apply fails_bind; [apply stays_train_critic | intros _].
  apply fails_bind; [by apply stays_emit | intros _].
  apply fails_bind;
    [apply stays_for_each; intros ?; by apply stays_emit | intros _].
  apply fails_bind; [apply stays_lift | intros _].
  apply fails_bind; [by apply stays_emit | intros _].
  apply fails_bind; [apply stays_identifier_step | intros _].
  apply fails_bind; [apply stays_lift | intros _].
  rewrite tensor_call_clnoe. apply fails_raise.
Qed.

(** *** Which exception *)










Lemma run_bind {A B} (m : M A) (f : A → M B) (w : world) :
  (m ≫= f) w
  = match m w with
    | (Ok a, w') => f a w'
    | (Raise e, w') => (Raise e, w')
    end.
Proof. reflexivity. Qed.

Lemma for_each_emit_run {A} (xs : list A) (f : A → event) (w : world) :
  for_each xs (λ x, emit (f x)) w
  = (Ok (), {| self := self w; calls := calls w ++ (f <$> xs);
               q_vals := q_vals w; running_log := running_log w |}).
Proof.
  revert w. induction xs as [|x xs IH]; intros w; cbn [for_each].
  - cbn. rewrite app_nil_r. by destruct w.
  - unfold mbind, M_bind. cbn [emit]. unfold emit at 1. rewrite IH.
    cbn [self calls q_vals running_log]. by rewrite <- app_assoc.
Qed.




(** *** Shapes of a well-formed batch *)









End Runs.

(** ** [train] as a whole *)



Example train_padded_batch :
  (@train toy_collaborators toy_args padded_batch 0 0 toy_world).1
  = Raise (AttributeError "clnoe").
Proof. reflexivity. Qed.


(** A batch without episodes: the [view] of line 191 is refused. *)
Example train_empty_batch :
  (@train toy_collaborators toy_args
     {| batch_size := 0; max_seq_length := 4; filled := [];
        terminated := []; attacker_action := [] |} 0 0 toy_world).1
  = Raise (RuntimeError "view").
Proof. reflexivity. Qed.

Example train_short_batch :
  (@train toy_collaborators toy_args short_batch 0 0 toy_world).1
  = Raise IndexError
  ∧ claimed_exception toy_args short_batch = NameError "targets_t".
Proof. split; reflexivity. Qed.

(** C7 on the code. No call of [train] synchronises the targets: it
    raises, and the target controller, the target critic and both
    synchronisation watermarks are what they were, with no message
    logged. The step-keyed check itself reads
    [last_target_update_step], which [__init__] does not assign: on a
    learner that does not have it the check raises [AttributeError]
    before anything is copied. *)
Theorem train_never_synchronises `{Collaborators} (args : Args)
    (batch : EpisodeBatch) (t_env episode_num : Z) (w : world) :
  (∃ e w',
     train args batch t_env episode_num w = (Raise e, w')
     ∧ target_mac (self w') = target_mac (self w)
     ∧ target_critic (self w') = target_critic (self w)
     ∧ last_target_update_step (self w') = last_target_update_step (self w)
     ∧ last_target_update_episode (self w')
       = last_target_update_episode (self w)
     ∧ ∃ evs, calls w' = calls w ++ evs
              ∧ ConsoleInfo "Updated target network" ∉ evs)
  ∧ (last_target_update_step (self w) = None →
     train_target_sync args episode_num w
     = (Raise (AttributeError "last_target_update_step"), w)).
Proof.
  split.
  - destruct (train_fails_before args batch t_env episode_num w)
      as [((evs & Hcalls & Hevs) & _ & Htm & Htc & Hstep & Hep & _) [e He]].
    destruct (train args batch t_env episode_num w) as [r w'].
    cbn [fst snd] in *. subst r.
    exists e, w'. repeat split; try done.
    exists evs. split; [done|].
    intros Hin. rewrite Forall_forall in Hevs.
    by specialize (Hevs _ Hin).
  - intros Hnone. unfold train_target_sync.
    rewrite run_bind. cbn [get_self]. rewrite Hnone. reflexivity.
Qed.

(** C7 at the learner [__init__] builds. *)
Lemma train_never_synchronises_witness :
  last_target_update_step (self toy_world) = None
  ∧ @train_target_sync toy_collaborators toy_args 0 toy_world
    = (Raise (AttributeError "last_target_update_step"), toy_world)
  ∧ ∃ e w',
      @train toy_collaborators toy_args toy_batch 0 0 toy_world = (Raise e, w')
      ∧ target_mac (self w') = target_mac (self toy_world)
      ∧ target_critic (self w') = target_critic (self toy_world).
Proof.
  destruct (@train_never_synchronises toy_collaborators toy_args toy_batch
              0 0 toy_world) as [(e & w' & Hrun & Htm & Htc & _) Hsync].
  exact (conj eq_refl (conj (Hsync eq_refl)
           (ex_intro _ e (ex_intro _ w' (conj Hrun (conj Htm Htc)))))).
Defined.

(** ** The attention block *)

Section AttentionFacts.
Local Open Scope R_scope.


Lemma sum_R_nonneg (l : list R) : Forall (Rle 0) l → 0 <= sum_R l.
Proof.
  induction 1 as [|y l Hy _ IH]; cbn [sum_R foldr]; [lra|].
  fold (sum_R l). lra.
Qed.



Lemma exp_le_sum (row : list R) (j : nat) (s : R) :
  row !! j = Some s → exp s <= sum_R (exp <$> row).
Proof.
  revert j. induction row as [|y row IH]; intros j Hj; [done|].
  rewrite fmap_cons. cbn [sum_R foldr]. fold (sum_R (exp <$> row)).
  assert (0 <= sum_R (exp <$> row)) as Hrest.
  { apply sum_R_nonneg, Forall_fmap, Forall_forall.
    intros z _. apply Rlt_le, exp_pos. }
  destruct j as [|j].
  - injection Hj as ->. lra.
  - specialize (IH j Hj). pose proof (exp_pos y). lra.
Qed.

(** The logit of a pair: the dot product of the query of [i] and the key
    of [j], multiplied by the mask entry, less [9e15] where the entry is
    0. No scaling factor is applied. *)
Lemma masked_logits_lookup (a : AttModel) (x mask : list (list R))
    (i j : nat) (l : R) :
  masked_logits (bmm_qk (project (fcq a) x) (project (fck a) x)) mask !! i
    ≫= (.!! j) = Some l →
  ∃ q_i k_j row m,
    project (fcq a) x !! i = Some q_i
    ∧ project (fck a) x !! j = Some k_j
    ∧ mask !! i = Some row ∧ row !! j = Some m
    ∧ l = dot q_i k_j * m - 9e15 * (1 - m).
Proof.
  unfold masked_logits, bmm_qk.
  rewrite lookup_zip_with, list_lookup_fmap.
  destruct (project (fcq a) x !! i) as [q_i|]; [|done].
  destruct (mask !! i) as [row|]; [|done].
  cbn [fmap option_fmap option_map mbind option_bind].
  rewrite lookup_zip_with, list_lookup_fmap.
  destruct (project (fck a) x !! j) as [k_j|]; [|done].
  destruct (row !! j) as [m|] eqn:Hm; [|done].
  cbn [fmap option_fmap option_map mbind option_bind].
  intros [= <-]. by exists q_i, k_j, row, m.
Qed.



End AttentionFacts.



(** * Further properties *)

(** ** Sequences of fallible steps *)

Lemma getitem_Ok {A} (l : list A) (i : nat) (a : A) :
  getitem l i = Ok a ↔ l !! i = Some a.
Proof. unfold getitem. destruct (l !! i); split; congruence. Qed.

Lemma result_bind_Ok {A B} (m : result A) (f : A → result B) (b : B) :
  m ≫= f = Ok b ↔ ∃ a, m = Ok a ∧ f a = Ok b.
Proof.
  destruct m as [a|e]; cbn; split.
  - intros Hf. by exists a.
  - by intros (a' & [= <-] & Hf).
  - done.
  - by intros (a' & Hm & _).
Qed.

Lemma mapM_Ok_Forall2 {A B} (f : A → result B) (l : list A) (ys : list B) :
  mapM f l = Ok ys ↔ Forall2 (λ x y, f x = Ok y) l ys.
Proof.
  revert ys. induction l as [|x l IH]; intros ys; cbn [mapM].
  - split; [intros [= <-]; constructor | by inversion 1].
  - rewrite result_bind_Ok. split.
    + intros (y & Hy & Hrest). apply result_bind_Ok in Hrest as (k & Hk & Hret).
      injection Hret as <-. constructor; [done | by apply IH].
    + inversion 1 as [|? y ? k Hy Hk]; subst. exists y. split; [done|].
      apply result_bind_Ok. exists k. split; [by apply IH | done].
Qed.

Lemma mapM_seq_lookup {B} (f : nat → result B) (n : nat) (ys : list B) (i : nat) :
  mapM f (seq 0 n) = Ok ys → (i < n)%nat →
  ∃ y, ys !! i = Some y ∧ f i = Ok y.
Proof.
  intros Hm Hi. apply mapM_Ok_Forall2 in Hm.
  destruct (Forall2_lookup_l _ _ _ i i Hm) as (y & Hy & Hf);
    [by apply lookup_seq_lt | by exists y].
Qed.

Lemma mapM_seq_length {B} (f : nat → result B) (n : nat) (ys : list B) :
  mapM f (seq 0 n) = Ok ys → length ys = n.
Proof.
  intros Hm. apply mapM_Ok_Forall2, Forall2_length in Hm.
  by rewrite length_seq in Hm.
Qed.

Lemma mapM_seq_Forall {B} (f : nat → result B) (n : nat) (ys : list B)
    (P : B → Prop) :
  mapM f (seq 0 n) = Ok ys → (∀ i y, f i = Ok y → P y) → Forall P ys.
Proof.
  intros Hm HP. apply mapM_Ok_Forall2 in Hm.
  induction Hm; constructor; eauto.
Qed.

(** ** The regathering loops *)

Section Regather.
Context {A B : Type}.

Lemma regather_shape (bs t_len n : nat) (src : list (list (list A)))
    (pick : A → result B) (out : list (list (list B))) :
  regather bs t_len n src pick = Ok out → shape3 bs t_len n out.
Proof.
  intros Hr. unfold regather in Hr. split; [by eapply mapM_seq_length|].
  eapply mapM_seq_Forall; [exact Hr|]. intros b ep Hep. cbn beta in Hep.
  split; [by eapply mapM_seq_length|].
  eapply mapM_seq_Forall; [exact Hep|]. intros t row Hrow. cbn beta in Hrow.
  by eapply mapM_seq_length.
Qed.

Lemma regather_lookup (bs t_len n : nat) (src : list (list (list A)))
    (pick : A → result B) (out : list (list (list B))) (b t m : nat) :
  regather bs t_len n src pick = Ok out →
  (b < bs)%nat → (t < t_len)%nat → (m < n)%nat →
  ∃ a v, get3 src b t m = Some a ∧ pick a = Ok v ∧ get3 out b t m = Some v.
Proof.
  intros Hr Hb Ht Hm. unfold regather in Hr.
  destruct (mapM_seq_lookup _ _ _ b Hr Hb) as (ep & Hep & Hfe).
  destruct (mapM_seq_lookup _ _ _ t Hfe Ht) as (row & Hrow & Hfr).
  destruct (mapM_seq_lookup _ _ _ m Hfr Hm) as (v & Hv & Hfv).
  apply result_bind_Ok in Hfv as (sep & Hsep & Hfv).
  apply result_bind_Ok in Hfv as (srow & Hsrow & Hfv).
  apply result_bind_Ok in Hfv as (a & Ha & Hpick).
  apply getitem_Ok in Hsep, Hsrow, Ha.
  exists a, v. unfold get3. by rewrite Hsep, Hep, Hsrow, Hrow.
Qed.

End Regather.
(** ** Decoding the recorded attacker actions *)

Lemma chunks_length {A} (n w : nat) (x : list A) : length (chunks n w x) = n.
Proof. revert x. induction n as [|n IH]; intros x; cbn; [done | by rewrite IH]. Qed.

Lemma chunks_lookup {A} (n w : nat) (x : list A) (m : nat) :
  (m < n)%nat → chunks n w x !! m = Some (take w (drop (m * w) x)).
Proof.
  revert x m. induction n as [|n IH]; intros x m Hm; [lia|].
  destruct m as [|m]; cbn [chunks].
  - by rewrite drop_0.
  - change ((take w x :: chunks n w (drop w x)) !! S m)
      with (chunks n w (drop w x) !! m).
    rewrite IH by lia. rewrite drop_drop.
    by replace (w + m * w)%nat with (S m * w)%nat by lia.
Qed.

Lemma view_msgs_Ok (bs t_len n : nat) (actions : list (list (list Q)))
    (viewed : list (list (list (list Q)))) :
  view_msgs bs t_len n actions = Ok viewed →
  (0 < bs)%nat ∧ (0 < t_len)%nat ∧ (0 < n)%nat
  ∧ viewed = (λ ep : list (list Q),
                (λ row : list Q, chunks n (size2 actions / n) row) <$> ep)
             <$> actions.
Proof.
  unfold view_msgs. cbv zeta.
  destruct (_ || _) eqn:Hrefused; [done|]. intros [= <-].
  apply orb_false_elim in Hrefused as [Hknown _].
  apply Nat.eqb_neq in Hknown.
  repeat split; destruct bs, t_len, n; lia.
Qed.

Lemma get3_view (n w : nat) (actions : list (list (list Q))) (b t m : nat) :
  get3 ((λ ep : list (list Q), (λ row : list Q, chunks n w row) <$> ep)
        <$> actions) b t m
  = match actions !! b with
    | Some ep =>
        match ep !! t with
        | Some row => chunks n w row !! m
        | None => None
        end
    | None => None
    end.
Proof.
  unfold get3. rewrite list_lookup_fmap.
  destruct (actions !! b) as [ep|]; [|done]. cbn.
  rewrite list_lookup_fmap. by destruct (ep !! t).
Qed.

Lemma chosen_flag_cases (v : Q) : chosen_flag v = 0 ∨ chosen_flag v = 1.
Proof. unfold chosen_flag. destruct (Qeq_bool v 1); auto. Qed.

Lemma parse_input_message_Ok `{Collaborators} (args : Args)
    (msg_input : list Q) (r : message) :
  _parse_input_message args msg_input = Ok r →
  length (msg_fields r) = 6%nat
  ∧ length (msg_certificate r)
    = ((length msg_input - fields_width args) / 2)%nat
  ∧ Forall (λ z, z = 0 ∨ z = 1) (msg_certificate r).
Proof.
  unfold _parse_input_message. cbv zeta.
  rewrite list_rev_onehot_spec.
  change (Ok ?c ≫= ?k) with (k c). cbv beta.
  intros Hr.
  assert (∀ a b : message, Ok a = Ok b → b = a) as Hinj by congruence.
  apply Hinj in Hr. rewrite Hr.
  unfold msg_fields, msg_certificate.
  split; [done|]. split.
  - rewrite length_fmap, length_seq. unfold slice_from.
    rewrite length_drop. unfold fields_width, num_msg_type.
    done.
  - apply Forall_fmap, Forall_forall. intros idx _. apply chosen_flag_cases.
Qed.

Lemma parse_input_message_returns `{Collaborators} (args : Args)
    (msg_input : list Q) :
  ∃ r, _parse_input_message args msg_input = Ok r.
Proof.
  unfold _parse_input_message. cbv zeta. rewrite list_rev_onehot_spec.
  by eexists.
Qed.


Lemma parse_attacker_actions_body_Ok `{Collaborators} (args : Args)
    (actions : list (list (list Q)))
    (ret ret_cert : list (list (list (list Z)))) :
  parse_attacker_actions_body args actions = Ok (ret, ret_cert) →
  ∃ parsed p000,
    (0 < length actions)%nat ∧ (0 < size1 actions)%nat
    ∧ (0 < total_msgs args)%nat
    ∧ regather (length actions) (size1 actions) (total_msgs args)
        ((λ ep : list (list Q),
            (λ row : list Q,
               chunks (total_msgs args) (size2 actions / total_msgs args) row)
            <$> ep) <$> actions)
        (_parse_input_message args) = Ok parsed
    ∧ get3 parsed 0 0 0 = Some p000
    ∧ mapM (λ idx,
         regather (length actions) (size1 actions) (total_msgs args) parsed
           (λ m, getitem (msg_fields m) idx))
        (seq 0 (message_len p000 - 1)) = Ok ret
    ∧ mapM (λ idx,
         regather (length actions) (size1 actions) (total_msgs args) parsed
           (λ m, getitem (msg_certificate m) idx))
        (seq 0 (n_peers args)) = Ok ret_cert.
Proof.
  unfold parse_attacker_actions_body. cbv zeta. fold (total_msgs args).
  intros Hbody.
  apply result_bind_Ok in Hbody as (viewed & Hview & Hbody).
  apply result_bind_Ok in Hbody as (parsed & Hparsed & Hbody).
  apply result_bind_Ok in Hbody as (p0 & Hp0 & Hbody).
  apply result_bind_Ok in Hbody as (p00 & Hp00 & Hbody).
  apply result_bind_Ok in Hbody as (p000 & Hp000 & Hbody).
  apply result_bind_Ok in Hbody as (ret' & Hret & Hbody).
  apply result_bind_Ok in Hbody as (ret_cert' & Hcert & Hbody).
  injection Hbody as <- <-.
  apply view_msgs_Ok in Hview as (Hbs & Ht & Hn & ->).
  apply getitem_Ok in Hp0, Hp00, Hp000.
  exists parsed, p000. repeat split; try done.
  unfold get3. by rewrite Hp0, Hp00.
Qed.

(** X2. When the decode of a recorded action tensor returns, it returns six
    field tensors and [n_peers] certificate tensors, every one of shape
    [bs, t_len, total_msgs]; the batch, the time axis and the message
    slots are then non-empty. *)
Theorem parse_attacker_actions_shape `{Collaborators} (args : Args)
    (actions : list (list (list Q)))
    (ret ret_cert : list (list (list (list Z)))) :
  parse_attacker_actions_body args actions = Ok (ret, ret_cert) →
  length ret = 6%nat
  ∧ length ret_cert = n_peers args
  ∧ Forall (shape3 (length actions) (size1 actions) (total_msgs args)) ret
  ∧ Forall (shape3 (length actions) (size1 actions) (total_msgs args)) ret_cert
  ∧ (0 < length actions)%nat ∧ (0 < size1 actions)%nat
  ∧ (0 < total_msgs args)%nat.
Proof.
  intros Hbody.
  apply parse_attacker_actions_body_Ok in Hbody
    as (parsed & p000 & Hbs & Ht & Hn & Hparsed & Hp000 & Hret & Hcert).
  destruct (regather_lookup _ _ _ _ _ _ 0 0 0 Hparsed Hbs Ht Hn)
    as (chunk & msg & _ & Hmsg & Hget).
  rewrite Hp000 in Hget. injection Hget as ->.
  apply parse_input_message_Ok in Hmsg as (Hfields & _).
  split. { apply mapM_seq_length in Hret. unfold message_len in Hret. lia. }
  split. { by apply mapM_seq_length in Hcert. }
  split. { eapply mapM_seq_Forall; [exact Hret|]. intros idx tensor Hreg.
           exact (regather_shape _ _ _ _ _ _ Hreg). }
  split. { eapply mapM_seq_Forall; [exact Hcert|]. intros idx tensor Hreg.
           exact (regather_shape _ _ _ _ _ _ Hreg). }
  done.
Qed.

(** [shape3] at the tensors decoded from [toy_batch]. *)
Lemma parse_attacker_actions_shape_witness :
  ∃ ret ret_cert,
    @parse_attacker_actions_body toy_collaborators toy_args
      (slice_init <$> attacker_action toy_batch) = Ok (ret, ret_cert)
    ∧ length ret = 6%nat ∧ length ret_cert = 2%nat
    ∧ Forall (shape3 1 3 1) ret ∧ Forall (shape3 1 3 1) ret_cert.
Proof.
  eexists _, _. split; [vm_compute; reflexivity|].
  lazymatch goal with
  | |- length ?r = _ ∧ length ?c = _ ∧ _ =>
      destruct (@parse_attacker_actions_shape toy_collaborators toy_args
                  (slice_init <$> attacker_action toy_batch) r c)
        as (Hr & Hc & Hsr & Hsc & _); [vm_compute; reflexivity|]
  end.
  exact (conj Hr (conj Hc (conj Hsr Hsc))).
Defined.

(** X3. When the decode returns, the entry [b, t, m] of field tensor [idx]
    is field [idx] of the decode of message [m] of step [t] of episode
    [b], and the same entry of certificate tensor [idx] is the flag of
    peer [idx] in that message's certificate; message [m] is the run of
    width [size2 actions / total_msgs] that starts at [m] times this
    width. *)
Theorem parse_attacker_actions_entries `{Collaborators} (args : Args)
    (actions : list (list (list Q)))
    (ret ret_cert : list (list (list (list Z)))) (b t m : nat) :
  parse_attacker_actions_body args actions = Ok (ret, ret_cert) →
  (b < length actions)%nat → (t < size1 actions)%nat →
  (m < total_msgs args)%nat →
  ∃ ep row msg,
    actions !! b = Some ep ∧ ep !! t = Some row
    ∧ _parse_input_message args
        (take (size2 actions / total_msgs args)
           (drop (m * (size2 actions / total_msgs args)) row)) = Ok msg
    ∧ (∀ idx, (idx < 6)%nat →
         ∃ tensor v, ret !! idx = Some tensor
                     ∧ msg_fields msg !! idx = Some v
                     ∧ get3 tensor b t m = Some v)
    ∧ (∀ idx, (idx < n_peers args)%nat →
         ∃ tensor v, ret_cert !! idx = Some tensor
                     ∧ msg_certificate msg !! idx = Some v
                     ∧ get3 tensor b t m = Some v).
Proof.
  intros Hbody Hb Ht Hm.
  apply parse_attacker_actions_body_Ok in Hbody
    as (parsed & p000 & Hbs & Htl & Hn & Hparsed & Hp000 & Hret & Hcert).
  destruct (regather_lookup _ _ _ _ _ _ 0 0 0 Hparsed Hbs Htl Hn)
    as (chunk0 & msg0 & _ & Hmsg0 & Hget0).
  rewrite Hp000 in Hget0. injection Hget0 as ->.
  apply parse_input_message_Ok in Hmsg0 as (Hfields0 & _).
  destruct (regather_lookup _ _ _ _ _ _ b t m Hparsed Hb Ht Hm)
    as (chunk & msg & Hchunk & Hmsg & Hget).
  rewrite get3_view in Hchunk.
  destruct (actions !! b) as [ep|] eqn:Hep; [|done].
  destruct (ep !! t) as [row|] eqn:Hrow; [|done].
  rewrite chunks_lookup in Hchunk by done. injection Hchunk as <-.
  exists ep, row, msg. split; [done|]. split; [done|]. split; [done|].
  split; intros idx Hidx.
  - destruct (mapM_seq_lookup _ _ _ idx Hret) as (tensor & Htensor & Hreg).
    { unfold message_len. lia. }
    destruct (regather_lookup _ _ _ _ _ _ b t m Hreg Hb Ht Hm)
      as (msg' & v & Hmsg' & Hv & Hgetv).
    rewrite Hget in Hmsg'. injection Hmsg' as <-.
    apply getitem_Ok in Hv. by exists tensor, v.
  - destruct (mapM_seq_lookup _ _ _ idx Hcert Hidx) as (tensor & Htensor & Hreg).
    destruct (regather_lookup _ _ _ _ _ _ b t m Hreg Hb Ht Hm)
      as (msg' & v & Hmsg' & Hv & Hgetv).
    rewrite Hget in Hmsg'. injection Hmsg' as <-.
    apply getitem_Ok in Hv. by exists tensor, v.
Qed.

(** The decode of the third recorded message of [toy_batch]. *)
Lemma parse_attacker_actions_entries_witness :
  ∃ ep row msg,
    (slice_init <$> attacker_action toy_batch) !! 0%nat = Some ep
    ∧ ep !! 2%nat = Some row
    ∧ @_parse_input_message toy_collaborators toy_args
        (take (size2 (slice_init <$> attacker_action toy_batch)
               / total_msgs toy_args)
           (drop (0 * (size2 (slice_init <$> attacker_action toy_batch)
                       / total_msgs toy_args)) row)) = Ok msg
    ∧ msg_fields msg = [3; 0; 1; 0; 1; 1]
    ∧ msg_certificate msg = [1; 0].
Proof.
  destruct (@parse_attacker_actions_body toy_collaborators toy_args
              (slice_init <$> attacker_action toy_batch))
    as [[ret ret_cert]|e] eqn:Hbody; [|by vm_compute in Hbody].
  destruct (@parse_attacker_actions_entries toy_collaborators toy_args
              (slice_init <$> attacker_action toy_batch) ret ret_cert
              0 2 0 Hbody)
    as (ep & row & msg & Hep & Hrow & Hmsg & _);
    [vm_compute; lia..|].
  exists ep, row, msg. split; [done|]. split; [done|]. split; [done|].
  vm_compute in Hep. injection Hep as <-.
  vm_compute in Hrow. injection Hrow as <-.
  vm_compute in Hmsg. by injection Hmsg as <-.
Defined.

(** ** When the decode returns *)

Lemma mapM_is_Ok {A B} (f : A → result B) (l : list A) :
  (∀ x, x ∈ l → ∃ y, f x = Ok y) → ∃ ys, mapM f l = Ok ys.
Proof.
  induction l as [|x l IH]; intros Hall; cbn [mapM]; [by eexists|].
  destruct (Hall x) as [y Hy]; [left|].
  destruct IH as [ys Hys]; [intros x' Hx'; apply Hall; by right|].
  rewrite Hy, Hys. by eexists.
Qed.

Lemma mapM_Raise {A B} (f : A → result B) (l : list A) (e : exn) :
  mapM f l = Raise e → ∃ x, x ∈ l ∧ f x = Raise e.
Proof.
  induction l as [|x l IH]; cbn [mapM]; [done|].
  destruct (f x) as [y|e'] eqn:Hx.
  - destruct (mapM f l) as [ys|e'']; [done|].
    intros [= ->]. destruct IH as (x' & Hx' & Hf); [done|].
    exists x'. split; [by right | done].
  - intros [= ->]. exists x. split; [left | done].
Qed.

Lemma regather_is_Ok {A B} (bs t_len n : nat) (src : list (list (list A)))
    (pick : A → result B) :
  (∀ b t m, (b < bs)%nat → (t < t_len)%nat → (m < n)%nat →
     ∃ a v, get3 src b t m = Some a ∧ pick a = Ok v) →
  ∃ out, regather bs t_len n src pick = Ok out.
Proof.
  intros Hall. unfold regather.
  apply mapM_is_Ok. intros b Hb. apply elem_of_seq in Hb.
  apply mapM_is_Ok. intros t Ht. apply elem_of_seq in Ht.
  apply mapM_is_Ok. intros m Hm. apply elem_of_seq in Hm.
  destruct (Hall b t m) as (a & v & Hget & Hpick); [lia..|].
  unfold get3 in Hget.
  destruct (src !! b) as [ep|] eqn:Hep; [|done].
  destruct (ep !! t) as [row|] eqn:Hrow; [|done].
  exists v. apply getitem_Ok in Hep, Hrow, Hget.
  rewrite Hep. cbn [mbind result_bind]. rewrite Hrow. cbn [mbind result_bind].
  by rewrite Hget.
Qed.

Lemma regather_Raise {A B} (bs t_len n : nat) (src : list (list (list A)))
    (pick : A → result B) (e : exn) :
  regather bs t_len n src pick = Raise e →
  (∀ a e', pick a = Raise e' → e' = IndexError) → e = IndexError.
Proof.
  unfold regather. intros Hr Hpick.
  apply mapM_Raise in Hr as (b & _ & Hr).
  apply mapM_Raise in Hr as (t & _ & Hr).
  apply mapM_Raise in Hr as (m & _ & Hr).
  unfold getitem in Hr.
  destruct (src !! b) as [ep|]; cbn [mbind result_bind] in Hr; [|congruence].
  destruct (ep !! t) as [row|]; cbn [mbind result_bind] in Hr; [|congruence].
  destruct (row !! m) as [a|]; cbn [mbind result_bind] in Hr; [|congruence].
  by eapply Hpick.
Qed.

Lemma getitem_Raise {A} (l : list A) (i : nat) (e : exn) :
  getitem l i = Raise e → e = IndexError.
Proof. unfold getitem. destruct (l !! i); congruence. Qed.

Lemma shape3_sizes {A} (bs t_len n : nat) (x : list (list (list A))) :
  shape3 bs t_len n x → (0 < bs)%nat → (0 < t_len)%nat →
  length x = bs ∧ size1 x = t_len ∧ size2 x = n.
Proof.
  intros [Hlen Hall] Hbs Ht. split; [done|].
  destruct x as [|ep x]; [cbn in Hlen; lia|].
  inversion Hall as [|? ? [Hep Hrows] _]; subst.
  split; [done|].
  destruct ep as [|row ep]; [cbn in Ht; lia|].
  by inversion Hrows.
Qed.

Lemma shape3_get {A} (bs t_len n : nat) (x : list (list (list A))) (b t : nat) :
  shape3 bs t_len n x → (b < bs)%nat → (t < t_len)%nat →
  ∃ ep row, x !! b = Some ep ∧ ep !! t = Some row ∧ length row = n.
Proof.
  intros [Hlen Hall] Hb Ht.
  destruct (lookup_lt_is_Some_2 x b) as [ep Hep]; [lia|].
  rewrite Forall_lookup in Hall. destruct (Hall b ep Hep) as [Hepl Hrows].
  destruct (lookup_lt_is_Some_2 ep t) as [row Hrow]; [lia|].
  rewrite Forall_lookup in Hrows.
  exists ep, row. eauto.
Qed.

Lemma chunk_length {A} (n w : nat) (row : list A) (m : nat) :
  length row = (n * w)%nat → (m < n)%nat →
  length (take w (drop (m * w) row)) = w.
Proof.
  intros Hrow Hm. rewrite length_take, length_drop, Hrow. nia.
Qed.

(** X4. A recorded action tensor of shape [bs, t_len, width], with a
    non-empty batch, time axis and message slots and a width that the
    message slots divide, decodes exactly when every message has room
    for [n_peers] certificate pairs after its six segments; otherwise
    the decode raises [IndexError]. *)
Theorem parse_attacker_actions_outcome `{Collaborators} (args : Args)
    (actions : list (list (list Q))) (bs t_len width : nat) :
  shape3 bs t_len width actions →
  (0 < bs)%nat → (0 < t_len)%nat → (0 < total_msgs args)%nat →
  (width mod total_msgs args = 0)%nat →
  if bool_decide (n_peers args
                  ≤ (width / total_msgs args - fields_width args) / 2)%nat
  then is_Ok (parse_attacker_actions_body args actions) = true
  else parse_attacker_actions_body args actions = Raise IndexError.
Proof.
  intros Hshape Hbs Ht Hn Hdiv.
  destruct (shape3_sizes _ _ _ _ Hshape Hbs Ht) as (Hlen & Hs1 & Hs2).
  set (w := (width / total_msgs args)%nat).
  assert (width = (total_msgs args * w)%nat) as Hwidth.
  { unfold w. apply Nat.Div0.div_exact. done. }
  (* every message decodes, with a certificate of the same length *)
  assert (∀ b t m, (b < bs)%nat → (t < t_len)%nat → (m < total_msgs args)%nat →
            ∃ chunk msg,
              get3 ((λ ep : list (list Q),
                       (λ row : list Q, chunks (total_msgs args) w row) <$> ep)
                    <$> actions) b t m = Some chunk
              ∧ _parse_input_message args chunk = Ok msg
              ∧ length (msg_fields msg) = 6%nat
              ∧ length (msg_certificate msg) = ((w - fields_width args) / 2)%nat)
    as Hdecode.
  { intros b t m Hb Htt Hm.
    destruct (shape3_get _ _ _ _ b t Hshape Hb Htt)
      as (ep & row & Hep & Hrow & Hrowlen).
    destruct (parse_input_message_returns args
                (take w (drop (m * w) row))) as [msg Hmsg].
    destruct (parse_input_message_Ok _ _ _ Hmsg) as (Hmlen & Hcert & _).
    exists (take w (drop (m * w) row)), msg.
    rewrite get3_view, Hep, Hrow, chunks_lookup by done.
    split; [done|]. split; [done|]. split; [done|].
    rewrite Hcert, (chunk_length (total_msgs args)) by (done || lia). done. }
  assert (view_msgs bs t_len (total_msgs args) actions
          = Ok ((λ ep : list (list Q),
                   (λ row : list Q, chunks (total_msgs args) w row) <$> ep)
                <$> actions)) as Hview.
  { unfold view_msgs. cbv zeta. rewrite Hs2.
    assert ((bs * t_len * total_msgs args =? 0)%nat = false) as ->
      by (apply Nat.eqb_neq; nia).
    assert ((bs * t_len * width) mod (bs * t_len * total_msgs args) = 0)%nat
      as -> by (rewrite Nat.Div0.mul_mod_distr_l, Hdiv; lia).
    done. }
  destruct (regather_is_Ok bs t_len (total_msgs args)
              ((λ ep : list (list Q),
                  (λ row : list Q, chunks (total_msgs args) w row) <$> ep)
               <$> actions)
              (_parse_input_message args)) as [parsed Hparsed].
  { intros b t m Hb Htt Hm.
    destruct (Hdecode b t m Hb Htt Hm) as (chunk & msg & Hget & Hmsg & _).
    by exists chunk, msg. }
  assert (∀ b t m, (b < bs)%nat → (t < t_len)%nat → (m < total_msgs args)%nat →
            ∃ msg, get3 parsed b t m = Some msg
                   ∧ length (msg_fields msg) = 6%nat
                   ∧ length (msg_certificate msg)
                     = ((w - fields_width args) / 2)%nat) as Hmsgs.
  { intros b t m Hb Htt Hm.
    destruct (regather_lookup _ _ _ _ _ _ b t m Hparsed Hb Htt Hm)
      as (chunk & msg & Hget & Hmsg & Hout).
    destruct (Hdecode b t m Hb Htt Hm) as (chunk' & msg' & Hget' & Hmsg' & Hl).
    rewrite Hget in Hget'. injection Hget' as <-.
    rewrite Hmsg in Hmsg'. injection Hmsg' as <-.
    by exists msg. }
  destruct (Hmsgs 0 0 0)%nat as (p000 & Hp000 & Hf000 & _); [done..|].
  assert (∃ ret,
            mapM (λ idx, regather bs t_len (total_msgs args) parsed
                           (λ m, getitem (msg_fields m) idx))
              (seq 0 (message_len p000 - 1)) = Ok ret) as [ret Hret].
  { apply mapM_is_Ok. intros idx Hidx. apply elem_of_seq in Hidx.
    unfold message_len in Hidx.
    apply regather_is_Ok. intros b t m Hb Htt Hm.
    destruct (Hmsgs b t m Hb Htt Hm) as (msg & Hget & Hfl & _).
    destruct (lookup_lt_is_Some_2 (msg_fields msg) idx) as [v Hv]; [lia|].
    exists msg, v. split; [done | by apply getitem_Ok]. }
  assert (parse_attacker_actions_body args actions
          = ret_cert ← mapM (λ idx,
                         regather bs t_len (total_msgs args) parsed
                           (λ m, getitem (msg_certificate m) idx))
                       (seq 0 (n_peers args));
            mret (ret, ret_cert)) as Hbody.
  { unfold parse_attacker_actions_body. cbv zeta. fold (total_msgs args).
    rewrite Hlen, Hs1, Hview. cbn [mbind result_bind].
    fold w. rewrite Hparsed. cbn [mbind result_bind].
    unfold get3 in Hp000.
    destruct (parsed !! 0%nat) as [p0|] eqn:Hp0; [|done].
    destruct (p0 !! 0%nat) as [p00|] eqn:Hp00; [|done].
    apply getitem_Ok in Hp0, Hp00, Hp000.
    rewrite Hp0. cbn [mbind result_bind]. rewrite Hp00. cbn [mbind result_bind].
    rewrite Hp000. cbn [mbind result_bind]. rewrite Hret. done. }
  rewrite Hbody.
  destruct (bool_decide _) eqn:Hroom.
  - apply bool_decide_eq_true in Hroom.
    destruct (mapM_is_Ok
                (λ idx, regather bs t_len (total_msgs args) parsed
                          (λ m, getitem (msg_certificate m) idx))
                (seq 0 (n_peers args))) as [ret_cert ->]; [|done].
    intros idx Hidx. apply elem_of_seq in Hidx.
    apply regather_is_Ok. intros b t m Hb Htt Hm.
    destruct (Hmsgs b t m Hb Htt Hm) as (msg & Hget & _ & Hcl).
    destruct (lookup_lt_is_Some_2 (msg_certificate msg) idx) as [v Hv]; [lia|].
    exists msg, v. split; [done | by apply getitem_Ok].
  - apply bool_decide_eq_false in Hroom.
    destruct (mapM _ (seq 0 (n_peers args))) as [ret_cert|e] eqn:Hcert.
    + exfalso.
      destruct (mapM_seq_lookup _ _ _ (n_peers args - 1) Hcert)
        as (tensor & _ & Hreg); [lia|].
      destruct (regather_lookup _ _ _ _ _ _ 0 0 0 Hreg Hbs Ht Hn)
        as (msg & v & Hget & Hv & _).
      destruct (Hmsgs 0 0 0)%nat as (msg' & Hget' & _ & Hcl); [done..|].
      rewrite Hget in Hget'. injection Hget' as <-.
      apply getitem_Ok, lookup_lt_Some in Hv. lia.
    + cbn [mbind result_bind is_Ok].
      apply mapM_Raise in Hcert as (idx & _ & Hreg).
      apply regather_Raise in Hreg as ->; [done|].
      intros a e'. apply getitem_Raise.
Qed.

(** The two cases at [toy_batch], whose messages have the documented
    width, and at [short_batch], whose messages lack one pair. *)
Lemma parse_attacker_actions_outcome_witness :
  is_Ok (@parse_attacker_actions_body toy_collaborators toy_args
           (slice_init <$> attacker_action toy_batch)) = true
  ∧ @parse_attacker_actions_body toy_collaborators toy_args
      (slice_init <$> attacker_action short_batch) = Raise IndexError.
Proof.
  split.
  - apply (@parse_attacker_actions_outcome toy_collaborators toy_args
             (slice_init <$> attacker_action toy_batch) 1 3 23).
    + split; [reflexivity | repeat constructor].
    + lia.
    + lia.
    + vm_compute; lia.
    + reflexivity.
  - apply (@parse_attacker_actions_outcome toy_collaborators toy_args
             (slice_init <$> attacker_action short_batch) 1 3 21).
    + split; [reflexivity | repeat constructor].
    + lia.
    + lia.
    + vm_compute; lia.
    + reflexivity.
Defined.

(** ** The validity mask *)

Lemma mask_assign_row_entry (mask terminated : list Z) (t : nat) (v : Z) :
  mask_assign_row mask terminated !! t = Some v →
  ∃ m, mask !! t = Some m
       ∧ (v = m ∨ ∃ te, te ∈ terminated ∧ v = m * (1 - te)).
Proof.
  unfold mask_assign_row, slice_from. intros Hv.
  destruct mask as [|m0 mask'].
  { cbn in Hv. done. }
  cbn [take drop app] in Hv. rewrite take_0, drop_0, app_nil_l in Hv.
  destruct t as [|t].
  - injection Hv as <-. exists m0. split; [done | by left].
  - change (zip_with (λ m te, m * (1 - te)) mask' (slice_init terminated) !! t
            = Some v) in Hv.
    apply lookup_zip_with_Some in Hv as (m & te & -> & Hm & Hte).
    exists m. split; [done|]. right. exists te. split; [|done].
    unfold slice_init in Hte. apply lookup_take_Some in Hte as [Hte _].
    by eapply list_elem_of_lookup_2.
Qed.

(** X5. When the [filled] and [terminated] flags of a batch are 0 or 1,
    every entry of the mask that [train] builds is 0 or 1 and never
    exceeds the [filled] flag of its step: padding is never marked
    valid. *)
Theorem train_mask_binary (batch : EpisodeBatch) (b t : nat)
    (mrow : list Z) (m : Z) :
  Forall (Forall (λ z, z = 0 ∨ z = 1)) (filled batch) →
  Forall (Forall (λ z, z = 0 ∨ z = 1)) (terminated batch) →
  train_mask batch !! b = Some mrow → mrow !! t = Some m →
  (m = 0 ∨ m = 1)
  ∧ ∃ frow f, filled batch !! b = Some frow ∧ frow !! t = Some f ∧ m ≤ f.
Proof.
  intros Hfilled Hterm Hrow Hm.
  unfold train_mask in Hrow. cbv zeta in Hrow.
  apply lookup_zip_with_Some in Hrow as (fi & ti & -> & Hfi & Hti).
  rewrite list_lookup_fmap in Hfi, Hti.
  destruct (filled batch !! b) as [frow|] eqn:Hfrow; [|done].
  destruct (terminated batch !! b) as [trow|] eqn:Htrow; [|done].
  injection Hfi as <-. injection Hti as <-.
  apply mask_assign_row_entry in Hm as (f & Hf & Hcases).
  unfold slice_init in Hf. apply lookup_take_Some in Hf as [Hf _].
  rewrite Forall_lookup in Hfilled, Hterm.
  pose proof (Hfilled b frow Hfrow) as Hfrow01.
  pose proof (Hterm b trow Htrow) as Htrow01.
  rewrite Forall_lookup in Hfrow01.
  pose proof (Hfrow01 t f Hf) as Hf01.
  assert ((m = 0 ∨ m = 1) ∧ m ≤ f) as [Hm01 Hle].
  { destruct Hcases as [->|(te & Hte & ->)]; [lia|].
    unfold slice_init in Hte. apply elem_of_take in Hte as (i & Hte & _).
    rewrite Forall_lookup in Htrow01.
    pose proof (Htrow01 i te Hte). lia. }
  split; [done|]. by exists frow, f.
Qed.

(** At the step of [toy_batch] that follows the terminal one. *)
Lemma train_mask_binary_witness :
  (0 = 0 ∨ 0 = 1)
  ∧ ∃ frow f, filled toy_batch !! 0%nat = Some frow
              ∧ frow !! 2%nat = Some f ∧ 0 ≤ f.
Proof.
  apply (train_mask_binary toy_batch 0 2 [1; 1; 0] 0).
  - repeat first [apply Forall_nil_2 | apply Forall_cons_2]; lia.
  - repeat first [apply Forall_nil_2 | apply Forall_cons_2]; lia.
  - reflexivity.
  - reflexivity.
Defined.

Lemma sum_list_replicate (n : nat) (m : Z) :
  sum_list (replicate n m) = Z.of_nat n * m.
Proof. induction n as [|n IH]; cbn [replicate sum_list foldr]; [lia|]. fold (sum_list (replicate n m)). lia. Qed.

Lemma sum_list_cons (z : Z) (l : list Z) : sum_list (z :: l) = z + sum_list l.
Proof. reflexivity. Qed.

Lemma sum_list_app (l k : list Z) : sum_list (l ++ k) = sum_list l + sum_list k.
Proof.
  induction l as [|z l IH]; [done|].
  rewrite <- app_comm_cons, !sum_list_cons, IH. lia.
Qed.

Lemma sum_list_nonneg (l : list Z) : Forall (λ z, 0 ≤ z) l → 0 ≤ sum_list l.
Proof.
  induction 1 as [|z l Hz _ IH]; [done|]. rewrite sum_list_cons. lia.
Qed.

Lemma sum_list_zero (l : list Z) :
  Forall (λ z, 0 ≤ z) l → (sum_list l = 0 ↔ Forall (λ z, z = 0) l).
Proof.
  induction 1 as [|z l Hz Hl IH]; [done|].
  rewrite sum_list_cons. pose proof (sum_list_nonneg l Hl). split.
  - intros Hsum. constructor; [lia | apply IH; lia].
  - inversion 1 as [|? ? -> Hrest]; subst. apply IH in Hrest. lia.
Qed.

(** [mask[:, t]] of the repeated mask, and its sum. *)
Lemma column_repeat_last_Ok (n t : nat) (mask : list (list Z)) :
  Forall (λ row, (t < length row)%nat) mask →
  column t (repeat_last n mask)
  = Ok ((λ row : list Z, replicate n (default 0 (row !! t))) <$> mask).
Proof.
  unfold column, repeat_last.
  induction 1 as [|row mask Hrow _ IH]; [done|].
  rewrite !fmap_cons. cbn [mapM]. rewrite IH.
  destruct (lookup_lt_is_Some_2 row t Hrow) as [m Hm].
  unfold getitem. rewrite list_lookup_fmap, Hm. done.
Qed.

Lemma tensor_sum_repeat (n t : nat) (mask : list (list Z)) :
  tensor_sum ((λ row : list Z, replicate n (default 0 (row !! t))) <$> mask)
  = Z.of_nat n * sum_list ((λ row : list Z, default 0 (row !! t)) <$> mask).
Proof.
  unfold tensor_sum. induction mask as [|row mask IH]; [cbn; lia|].
  rewrite !fmap_cons, !sum_list_cons, IH, sum_list_replicate. lia.
Qed.

Lemma step_valid_repeat_last (n t : nat) (mask : list (list Z)) :
  Forall (λ row, (t < length row)%nat) mask →
  step_valid (repeat_last n mask) t
  = negb (Z.of_nat n
          * sum_list ((λ row : list Z, default 0 (row !! t)) <$> mask) =? 0).
Proof.
  intros Hrows. unfold step_valid.
  by rewrite column_repeat_last_Ok, tensor_sum_repeat.
Qed.

(** X6. The test of line 156 on the mask repeated [n_agents] times: for a
    mask without negative entries and at least one agent, step [t] is
    fitted exactly when some episode has a nonzero mask entry at [t]; it
    is skipped when the mask of every episode is 0 there, and always
    when there is no agent. *)
Theorem step_valid_iff (n t : nat) (mask : list (list Z)) :
  Forall (λ row, (t < length row)%nat) mask →
  Forall (Forall (λ z, 0 ≤ z)) mask →
  step_valid (repeat_last n mask) t = true
  ↔ (0 < n)%nat ∧ ∃ b row m, mask !! b = Some row ∧ row !! t = Some m ∧ m ≠ 0.
Proof.
  intros Hrows Hnonneg. rewrite step_valid_repeat_last by done.
  rewrite negb_true_iff, Z.eqb_neq.
  assert (Forall (λ z, 0 ≤ z)
            ((λ row : list Z, default 0 (row !! t)) <$> mask)) as Hcol.
  { apply Forall_fmap, Forall_forall. intros row Hrow. cbn.
    rewrite Forall_forall in Hnonneg. specialize (Hnonneg row Hrow).
    destruct (row !! t) as [m|] eqn:Hm; [|done]. cbn.
    rewrite Forall_lookup in Hnonneg. by eapply Hnonneg. }
  pose proof (sum_list_zero _ Hcol) as Hzero.
  split.
  - intros Hsum. split; [destruct n; [by cbn in Hsum | lia]|].
    assert (¬ Forall (λ z, z = 0)
              ((λ row : list Z, default 0 (row !! t)) <$> mask)) as Hsome.
    { intros Hall. apply Hzero in Hall. lia. }
    apply not_Forall_Exists in Hsome; [|intros z; apply _].
    apply Exists_exists in Hsome as (z & Hz & Hne).
    apply list_elem_of_fmap in Hz as (row & -> & Hrow).
    apply list_elem_of_lookup in Hrow as [b Hb].
    cbn in Hne.
    destruct (row !! t) as [m|] eqn:Hm; [|by destruct Hne].
    by exists b, row, m.
  - intros (Hn & b & row & m & Hb & Hm & Hne) Hsum.
    assert (sum_list ((λ row : list Z, default 0 (row !! t)) <$> mask) = 0)
      as Hs by nia.
    apply Hzero in Hs. rewrite Forall_fmap, Forall_lookup in Hs.
    specialize (Hs b row Hb). cbn in Hs. rewrite Hm in Hs. done.
Qed.

(** Step 1 of [toy_batch] is fitted: the mask of its episode is 1
    there. *)
Lemma step_valid_iff_witness :
  step_valid (repeat_last 2 (train_mask toy_batch)) 1 = true
  ↔ (0 < 2)%nat
    ∧ ∃ b row m, train_mask toy_batch !! b = Some row
                 ∧ row !! 1%nat = Some m ∧ m ≠ 0.
Proof.
  apply (step_valid_iff 2 1 (train_mask toy_batch)).
  - repeat first [apply Forall_nil_2 | apply Forall_cons_2]; simpl; lia.
  - repeat first [apply Forall_nil_2 | apply Forall_cons_2]; lia.
Defined.

(** ** Whole runs of [_train_critic] *)

Section CriticRuns.
Context `{Collaborators}.


Lemma with_calls_app (evs evs' : list event) (w : world) :
  with_calls evs' (with_calls evs w) = with_calls (evs ++ evs') w.
Proof. unfold with_calls. cbn. by rewrite <- app_assoc. Qed.

Lemma step_valid_false (mask : list (list (list Z))) (t : nat) :
  is_Ok (column t mask) = true → step_valid mask t = false →
  ∃ mask_t, column t mask = Ok mask_t ∧ tensor_sum mask_t = 0.
Proof.
  unfold step_valid. destruct (column t mask) as [mask_t|]; [|done].
  intros _ Hv. exists mask_t. split; [done|].
  apply negb_false_iff in Hv. by apply Z.eqb_eq.
Qed.


(** Steps without valid samples leave their [print] only. *)
Lemma critic_loop_skip_run (args : Args) (batch : EpisodeBatch)
    (mask : list (list (list Z))) (ts : list nat) (w : world) :
  Forall (λ t, is_Ok (column t mask) = true ∧ step_valid mask t = false) ts →
  for_each ts (critic_loop_body args batch mask) w
  = (Ok (), with_calls (replicate (length ts) (Print "mask_t shape")) w).
Proof.
  revert w. induction ts as [|t ts IH]; intros w Hts.
  - cbn. unfold with_calls. cbn. rewrite app_nil_r. by destruct w.
  - inversion Hts as [|? ? [Hcol Hskip] Hrest]; subst.
    destruct (step_valid_false mask t Hcol Hskip) as (mask_t & Hc & Hsum).
    cbn [for_each]. rewrite run_bind.
    rewrite (critic_loop_body_skip args batch mask t w mask_t Hc Hsum).
    rewrite IH by done. unfold with_calls.
    cbn [self calls q_vals running_log length replicate].
    by rewrite <- app_assoc.
Qed.

Lemma train_critic_start (args : Args) (batch : EpisodeBatch)
    (mask : list (list (list Z))) (w : world) :
  _train_critic args batch mask w
  = for_each (reverse (seq 0 (max_seq_length batch - 1)))
      (critic_loop_body args batch mask) (critic_loop_start batch w).
Proof.
  unfold _train_critic.
  rewrite run_bind. cbn [emit]. rewrite run_bind, for_each_emit_run.
  rewrite !run_bind.
  cbn [emit set_q_vals set_running_log self calls q_vals running_log].
  unfold critic_loop_start. rewrite <- !app_assoc.
  rewrite run_bind. cbn [set_q_vals self calls q_vals running_log].
  rewrite run_bind. cbn [set_running_log self calls q_vals running_log].
  rewrite run_bind. cbn [emit self calls q_vals running_log].
  by rewrite <- !app_assoc.
Qed.





(** The run of [_train_critic] when no step has valid samples. *)
Lemma train_critic_skip_run (args : Args) (batch : EpisodeBatch)
    (mask : list (list (list Z))) (w : world) :
  (∀ t, (t < max_seq_length batch - 1)%nat →
     is_Ok (column t mask) = true ∧ step_valid mask t = false) →
  _train_critic args batch mask w
  = (Ok (),
     with_calls (replicate (max_seq_length batch - 1) (Print "mask_t shape"))
       (critic_loop_start batch w)).
Proof.
  intros Hskip. rewrite train_critic_start, critic_loop_skip_run.
  - by rewrite length_reverse, length_seq.
  - apply Forall_forall. intros t Ht.
    apply elem_of_reverse, elem_of_seq in Ht. apply Hskip. lia.
Qed.

End CriticRuns.



(** X8. If no step has a nonzero mask sum, [_train_critic] returns without
    fitting the critic: the learner is unchanged, no Q-value is stored,
    the five logs are empty, and the only calls are the target critic's
    forward passes, the target builder and one [print] per step. *)
Theorem train_critic_without_valid_step `{Collaborators} (args : Args)
    (batch : EpisodeBatch) (mask : list (list (list Z))) (w : world) :
  (∀ t, (t < max_seq_length batch - 1)%nat →
     is_Ok (column t mask) = true ∧ step_valid mask t = false) →
  _train_critic args batch mask w
  = (Ok (),
     {| self := self w;
        calls := calls w
                 ++ [InitHidden "target_critic"]
                 ++ (TargetCriticForward <$> seq 0 (max_seq_length batch))
                 ++ [BuildTdLambdaTargets; InitHidden "critic"]
                 ++ replicate (max_seq_length batch - 1) (Print "mask_t shape");
        q_vals := replicate (max_seq_length batch - 1) None;
        running_log := initial_running_log |}).
Proof.
  intros Hskip. rewrite train_critic_skip_run by done.
  unfold with_calls, critic_loop_start.
  cbn [self calls q_vals running_log]. by rewrite <- !app_assoc.
Qed.

(** On the mask of [padded_batch], which is 0 throughout. *)
Lemma train_critic_without_valid_step_witness :
  @_train_critic toy_collaborators toy_args padded_batch
    (repeat_last 2 (train_mask padded_batch)) toy_world
  = (Ok (),
     {| self := toy_learner;
        calls := [InitHidden "target_critic"; TargetCriticForward 0;
                  TargetCriticForward 1; TargetCriticForward 2;
                  TargetCriticForward 3; BuildTdLambdaTargets;
                  InitHidden "critic"; Print "mask_t shape";
                  Print "mask_t shape"; Print "mask_t shape"];
        q_vals := [None; None; None];
        running_log := initial_running_log |}).
Proof.
  apply (@train_critic_without_valid_step toy_collaborators toy_args
           padded_batch (repeat_last 2 (train_mask padded_batch)) toy_world).
  intros t Ht. simpl in Ht.
  destruct t as [|[|[|t]]]; [split; reflexivity.. | lia].
Defined.

(** ** Whole runs of [train] *)





Section TrainRuns.
Context `{Collaborators}.





End TrainRuns.





(** ** Persistence: what is written and what is read back *)

Section PersistenceFacts.
Context `{Collaborators}.

(** X11. [save_models] writes five files next to those of the controller:
    the names are distinct, so each holds the state it was written with,
    and every other path is as the controller's save left it. The
    identifier's optimiser goes to [identifier_critic_opt.th]. *)
Theorem save_models_files (path : string) (s : SeparateLearner)
    (fs : gmap string (file Mac Critic Optim)) :
  save_models path s fs !! (path +:+ "/critic.th") = Some (FState (critic s))
  ∧ save_models path s fs !! (path +:+ "/tar_critic.th")
    = Some (FState (target_critic s))
  ∧ save_models path s fs !! (path +:+ "/identifier_critic_opt.th")
    = Some (FOptim (identifier_optimiser s))
  ∧ save_models path s fs !! (path +:+ "/critic_opt.th")
    = Some (FOptim (critic_optimiser s))
  ∧ save_models path s fs !! (path +:+ "/attacker_opt.th")
    = Some (FOptim (attacker_optimiser s))
  ∧ ∀ p, p ∉ [path +:+ "/critic.th"; path +:+ "/tar_critic.th";
              path +:+ "/identifier_critic_opt.th";
              path +:+ "/critic_opt.th"; path +:+ "/attacker_opt.th"] →
         save_models path s fs !! p = mac_save_models (mac s) path fs !! p.
Proof.
  unfold save_models, th_save. cbv zeta.
  repeat split.
  - rewrite !lookup_insert_ne by (by apply checkpoint_name_ne).
    apply lookup_insert_eq.
  - rewrite !lookup_insert_ne by (by apply checkpoint_name_ne).
    apply lookup_insert_eq.
  - rewrite !lookup_insert_ne by (by apply checkpoint_name_ne).
    apply lookup_insert_eq.
  - rewrite !lookup_insert_ne by (by apply checkpoint_name_ne).
    apply lookup_insert_eq.
  - apply lookup_insert_eq.
  - intros p Hp. rewrite !not_elem_of_cons in Hp.
    destruct Hp as (H1 & H2 & H3 & H4 & H5 & _).
    by rewrite !lookup_insert_ne by done.
Qed.

Lemma save_models_optimisers (path : string) (s : SeparateLearner)
    (fs : gmap string (file Mac Critic Optim)) :
  save_models path s fs !! (path +:+ "/critic_opt.th")
  = Some (FOptim (critic_optimiser s))
  ∧ save_models path s fs !! (path +:+ "/attacker_opt.th")
    = Some (FOptim (attacker_optimiser s)).
Proof.
  unfold save_models, th_save. cbv zeta. split.
  - rewrite !lookup_insert_ne by (by apply checkpoint_name_ne).
    apply lookup_insert_eq.
  - apply lookup_insert_eq.
Qed.

(** X12. When the directory holds, after the controller's own save, an
    optimiser file named [identifier_opt.th] (an older one, left in
    place), and the controller's two loads return, loading what was just
    saved
    returns: the critic, the target critic and the attacker's and the
    critic's optimisers are the saved ones, but the identifier's
    optimiser is the state of that older file, not the saved one; the
    counters of the loading learner are not touched. *)
Theorem load_after_save_stale_identifier (path : string)
    (s : SeparateLearner) (fs : gmap string (file Mac Critic Optim))
    (w : world) (m tm : Mac) (stale : Optim) :
  mac_save_models (mac s) path fs !! (path +:+ "/identifier_opt.th")
  = Some (FOptim stale) →
  mac_load_models (mac (self w)) path (save_models path s fs) = Ok m →
  mac_load_models (target_mac (self w)) path (save_models path s fs) = Ok tm →
  load_models path (save_models path s fs) w
  = (Ok (),
     {| self :=
          {| mac := m; target_mac := tm;
             critic := critic s; target_critic := target_critic s;
             identifier_optimiser := stale;
             attacker_optimiser := attacker_optimiser s;
             critic_optimiser := critic_optimiser s;
             last_target_update_episode := last_target_update_episode (self w);
             critic_training_steps := critic_training_steps (self w);
             last_target_update_step := last_target_update_step (self w);
             log_stats_t := log_stats_t (self w) |};
        calls := calls w; q_vals := q_vals w; running_log := running_log w |}).
Proof.
  intros Hstale Hmac Htmac.
  destruct (save_models_optimisers path s fs) as [Hco Hao].
  unfold load_models, th_load.
  rewrite save_models_critic, save_models_tar_critic,
    save_models_identifier_opt, Hstale, Hco, Hao.
  cbv [mbind M_bind get_self set_self lift mret M_ret result_bind
       critic_state_of optim_state_of].
  cbn [self with_actor with_targets with_critic mac target_mac].
  rewrite Hmac. cbn [self with_actor with_targets with_critic mac target_mac].
  rewrite Htmac. reflexivity.
Qed.

(** X13. Whether it returns or raises, [load_models] leaves the counters of
    the learner, the recorded calls and the objects of [_train_critic] as
    they are: a checkpoint carries no training progress. *)
Theorem load_models_keeps_counters (path : string)
    (fs : gmap string (file Mac Critic Optim)) (w : world) :
  last_target_update_episode (self (load_models path fs w).2)
  = last_target_update_episode (self w)
  ∧ critic_training_steps (self (load_models path fs w).2)
    = critic_training_steps (self w)
  ∧ last_target_update_step (self (load_models path fs w).2)
    = last_target_update_step (self w)
  ∧ log_stats_t (self (load_models path fs w).2) = log_stats_t (self w)
  ∧ calls (load_models path fs w).2 = calls w
  ∧ q_vals (load_models path fs w).2 = q_vals w
  ∧ running_log (load_models path fs w).2 = running_log w.
Proof.
  remember (load_models path fs w) as r eqn:Hr.
  unfold load_models, th_load in Hr.
  rewrite run_bind in Hr. cbn [get_self] in Hr.
  rewrite run_bind in Hr. unfold lift at 1 in Hr.
  destruct (mac_load_models (mac (self w)) path fs) as [m|]; [|by subst r].
  rewrite run_bind in Hr. cbn [set_self] in Hr.
  rewrite run_bind in Hr. cbn [get_self self] in Hr.
  rewrite run_bind in Hr. unfold lift at 1 in Hr.
  destruct (mac_load_models _ path fs) as [tm|]; [|by subst r].
  rewrite run_bind in Hr. cbn [set_self] in Hr.
  rewrite run_bind in Hr. unfold lift at 1 in Hr.
  destruct (fs !! (path +:+ "/critic.th")) as [[| c |]|]; try (by subst r).
  cbn [mbind result_bind critic_state_of] in Hr.
  rewrite run_bind in Hr. cbn [get_self self] in Hr.
  rewrite run_bind in Hr. cbn [set_self] in Hr.
  rewrite run_bind in Hr. unfold lift at 1 in Hr.
  destruct (fs !! (path +:+ "/tar_critic.th")) as [[| tc |]|];
    try (by subst r).
  cbn [mbind result_bind critic_state_of] in Hr.
  rewrite run_bind in Hr. cbn [get_self self] in Hr.
  rewrite run_bind in Hr. cbn [set_self] in Hr.
  rewrite run_bind in Hr. unfold lift at 1 in Hr.
  destruct (fs !! (path +:+ "/identifier_opt.th")) as [[| | io]|];
    try (by subst r).
  cbn [mbind result_bind optim_state_of] in Hr.
  rewrite run_bind in Hr. cbn [get_self self] in Hr.
  rewrite run_bind in Hr. cbn [set_self] in Hr.
  rewrite run_bind in Hr. unfold lift at 1 in Hr.
  destruct (fs !! (path +:+ "/attacker_opt.th")) as [[| | ao]|];
    try (by subst r).
  cbn [mbind result_bind optim_state_of] in Hr.
  rewrite run_bind in Hr. cbn [get_self self] in Hr.
  rewrite run_bind in Hr. cbn [set_self] in Hr.
  rewrite run_bind in Hr. unfold lift at 1 in Hr.
  destruct (fs !! (path +:+ "/critic_opt.th")) as [[| | co]|];
    by subst r.
Qed.

End PersistenceFacts.

(** A directory that holds an older [identifier_opt.th]: the loaded
    identifier optimiser is the older state 9, not the saved state 3. *)
Lemma load_after_save_stale_identifier_witness :
  @load_models toy_collaborators "ckpt"
    (@save_models toy_collaborators "ckpt" trained_learner
       {["ckpt/identifier_opt.th" := FOptim 9%nat]}) toy_world
  = (Ok (),
     {| self := with_counters 0 0 None (-101)
                  (@init toy_collaborators toy_args 1%nat 7%nat 8%nat
                     9%nat 4%nat 5%nat);
        calls := []; q_vals := []; running_log := ∅ |})
  ∧ identifier_optimiser trained_learner = 3%nat.
Proof.
  split; [|reflexivity].
  exact (@load_after_save_stale_identifier toy_collaborators "ckpt"
           trained_learner {["ckpt/identifier_opt.th" := FOptim 9%nat]}
           toy_world 1%nat 1%nat 9%nat eq_refl eq_refl eq_refl).
Defined.

(** ** The cadence checks and the logging block *)

Lemma Qle_bool_div_pos (a : Z) (p : positive) :
  Qle_bool 1 (inject_Z a / inject_Z (Z.pos p)) = (Z.pos p <=? a).
Proof.
  apply eq_true_iff_eq. rewrite Qle_bool_iff, Z.leb_le.
  unfold Qle, Qdiv, Qinv, Qmult, inject_Z. cbn. lia.
Qed.

Lemma Qle_bool_div_neg (a : Z) (p : positive) :
  Qle_bool 1 (inject_Z a / inject_Z (Z.neg p)) = (a <=? Z.neg p).
Proof.
  apply eq_true_iff_eq. rewrite Qle_bool_iff, Z.leb_le.
  unfold Qle, Qdiv, Qinv, Qmult, inject_Z. cbn. lia.
Qed.

(** X14. The test [elapsed / interval >= 1.0] of lines 112 and 116: with a
    positive interval it holds exactly when at least [interval] has
    elapsed, with a negative one when [elapsed] is at most the interval,
    and an interval of 0 raises [ZeroDivisionError]. *)
Theorem cadence_due_cases (elapsed interval : Z) :
  cadence_due elapsed interval
  = if interval =? 0 then Raise ZeroDivisionError
    else if 0 <? interval then Ok (interval <=? elapsed)
    else Ok (elapsed <=? interval).
Proof.
  unfold cadence_due, py_truediv.
  destruct interval as [|p|p]; cbn [Z.eqb Z.ltb Z.compare mbind result_bind
                                    mret result_ret].
  - done.
  - by rewrite Qle_bool_div_pos.
  - by rewrite Qle_bool_div_neg.
Qed.

Section CadenceRuns.
Context `{Collaborators}.

Lemma cadence_due_pos (elapsed interval : Z) :
  0 < interval → cadence_due elapsed interval = Ok (interval <=? elapsed).
Proof.
  intros Hpos. unfold cadence_due, py_truediv.
  destruct interval as [|p|p]; [lia | | lia].
  cbn [Z.eqb mbind result_bind mret result_ret]. by rewrite Qle_bool_div_pos.
Qed.

Ltac sync_fields :=
  cbv beta;
  cbn [self calls q_vals running_log with_targets with_counters mac critic
       target_mac target_critic last_target_update_step
       last_target_update_episode critic_training_steps log_stats_t orb app];
  rewrite ?app_nil_r, <- ?app_assoc; repeat split; try done.

Lemma update_targets_run (w : world) :
  _update_targets w
  = (Ok (), {| self := with_targets (mac (self w)) (critic (self w)) (self w);
               calls := calls w ++ sync_calls;
               q_vals := q_vals w; running_log := running_log w |}).
Proof.
  unfold _update_targets. cbv [mbind M_bind modify_self emit].
  cbn [self calls q_vals running_log with_targets mac critic target_mac
       target_critic].
  unfold sync_calls. by rewrite <- !app_assoc.
Qed.

(** X15. The two cadence checks of lines 112-118 on a learner whose
    [last_target_update_step] is set, for a positive interval. The block
    returns. The targets are synchronised once for each check that is
    due, so twice in one call when both are; after a synchronisation the
    target controller and critic are the online ones; each check that is
    due records its own counter and leaves the other's alone. *)
Theorem train_target_sync_effect (args : Args) (episode_num : Z)
    (w : world) (last_step : Z) :
  last_target_update_step (self w) = Some last_step →
  0 < target_update_interval args →
  let step_due := target_update_interval args
                  <=? critic_training_steps (self w) - last_step in
  let episode_due := target_update_interval args
                     <=? episode_num - last_target_update_episode (self w) in
  ∃ w',
    train_target_sync args episode_num w = (Ok (), w')
    ∧ calls w' = calls w ++ (if step_due then sync_calls else [])
                 ++ (if episode_due then sync_calls else [])
    ∧ target_mac (self w')
      = (if step_due || episode_due then mac (self w)
         else target_mac (self w))
    ∧ target_critic (self w')
      = (if step_due || episode_due then critic (self w)
         else target_critic (self w))
    ∧ last_target_update_step (self w')
      = Some (if step_due then critic_training_steps (self w) else last_step)
    ∧ last_target_update_episode (self w')
      = (if episode_due then episode_num
         else last_target_update_episode (self w))
    ∧ mac (self w') = mac (self w) ∧ critic (self w') = critic (self w)
    ∧ critic_training_steps (self w') = critic_training_steps (self w)
    ∧ log_stats_t (self w') = log_stats_t (self w).
Proof.
  intros Hlast Hpos step_due episode_due.
  unfold train_target_sync.
  rewrite run_bind. cbn [get_self].
  rewrite run_bind. rewrite Hlast. cbn [getattr lift].
  rewrite run_bind. rewrite cadence_due_pos by done. cbn [lift].
  fold step_due. rewrite run_bind.
  destruct step_due.
  - rewrite run_bind, update_targets_run. cbn [modify_self self].
    rewrite run_bind. cbn [get_self self].
    rewrite run_bind.
    cbn [self with_counters with_targets last_target_update_episode
         critic_training_steps].
    rewrite cadence_due_pos by done. cbn [lift]. fold episode_due.
    destruct episode_due.
    + rewrite run_bind, update_targets_run. cbn [modify_self self].
      eexists. split; [reflexivity|]. sync_fields.
    + eexists. split; [reflexivity|]. sync_fields.
  - cbn [mret M_ret]. rewrite run_bind. cbn [get_self self].
    rewrite run_bind. rewrite cadence_due_pos by done. cbn [lift].
    fold episode_due. destruct episode_due.
    + rewrite run_bind, update_targets_run. cbn [modify_self self].
      eexists. split; [reflexivity|]. sync_fields.
    + eexists. split; [reflexivity|]. sync_fields.
Qed.

(** X16. The logging block of lines 120-125 on a freshly constructed learner:
    [__init__] sets [log_stats_t] to [-learner_log_interval - 1], so the
    first block logs the four statistics for every [t_env >= -1],
    whatever the interval, and records [t_env]; the block that follows,
    at [t_env'], logs exactly when [t_env' - t_env] is at least
    [learner_log_interval]. *)
Theorem train_log_first_call (args : Args) (t_env t_env' : Z) (w : world)
    (mac0 : Mac) (critic0 target_critic0 : Critic)
    (id_opt att_opt cr_opt : Optim) :
  self w = init args mac0 critic0 target_critic0 id_opt att_opt cr_opt →
  -1 ≤ t_env →
  ∃ w1,
    train_log args t_env w = (Ok (), w1)
    ∧ calls w1 = calls w ++ log_calls t_env
    ∧ log_stats_t (self w1) = t_env
    ∧ ∃ w2,
        train_log args t_env' w1 = (Ok (), w2)
        ∧ calls w2
          = calls w1
            ++ (if learner_log_interval args <=? t_env' - t_env
                then log_calls t_env' else [])
        ∧ log_stats_t (self w2)
          = (if learner_log_interval args <=? t_env' - t_env
             then t_env' else t_env).
Proof.
  intros Hself Ht.
  unfold train_log at 1. rewrite run_bind. cbn [get_self].
  rewrite Hself. cbn [init log_stats_t].
  assert ((learner_log_interval args
           <=? t_env - (- learner_log_interval args - 1)) = true) as ->
    by (apply Z.leb_le; lia).
  cbv [mbind M_bind emit modify_self]. cbn [self calls q_vals running_log].
  eexists. split; [reflexivity|].
  cbn [self calls log_stats_t with_counters].
  split; [unfold log_calls; by rewrite <- !app_assoc|]. split; [done|].
  unfold train_log. cbv [mbind M_bind get_self emit modify_self].
  cbn [self calls q_vals running_log log_stats_t with_counters].
  destruct (learner_log_interval args <=? t_env' - t_env).
  - eexists. split; [reflexivity|]. cbn [self calls log_stats_t with_counters].
    split; [unfold log_calls; by rewrite <- !app_assoc | done].
  - eexists. split; [reflexivity|]. cbn. by rewrite app_nil_r.
Qed.

End CadenceRuns.

(** A learner 250 critic steps and 300 episodes after its last
    synchronisations, with an interval of 200: both checks are due and
    the targets are synchronised twice. *)
Lemma train_target_sync_effect_witness :
  ∃ w',
    @train_target_sync toy_collaborators toy_args 300
      {| self := with_counters 0 250 (Some 0) (-101) trained_learner;
         calls := []; q_vals := []; running_log := ∅ |}
    = (Ok (), w')
    ∧ calls w' = sync_calls ++ sync_calls
    ∧ target_critic (self w') = critic trained_learner
    ∧ last_target_update_step (self w') = Some 250
    ∧ last_target_update_episode (self w') = 300.
Proof.
  destruct (@train_target_sync_effect toy_collaborators toy_args 300
              {| self := with_counters 0 250 (Some 0) (-101) trained_learner;
                 calls := []; q_vals := []; running_log := ∅ |}
              0 eq_refl eq_refl)
    as (w' & Hrun & Hcalls & _ & Htc & Hstep & Hep & _).
  exists w'. split; [exact Hrun|]. split; [exact Hcalls|].
  split; [exact Htc|]. split; [exact Hstep | exact Hep].
Defined.

(** The first two logging blocks of [toy_learner], at steps 0 and 40:
    the first logs, the second comes too early for the interval 100. *)
Lemma train_log_first_call_witness :
  ∃ w1,
    @train_log toy_collaborators toy_args 0 toy_world = (Ok (), w1)
    ∧ calls w1 = [] ++ log_calls 0
    ∧ log_stats_t (self w1) = 0
    ∧ ∃ w2,
        @train_log toy_collaborators toy_args 40 w1 = (Ok (), w2)
        ∧ calls w2 = calls w1 ++ []
        ∧ log_stats_t (self w2) = 0.
Proof.
  apply (@train_log_first_call toy_collaborators toy_args 0 40 toy_world
           0%nat 0%nat 0%nat 0%nat 0%nat 0%nat).
  - reflexivity.
  - lia.
Defined.

(** ** The attention weights as a distribution *)

Section AttentionWeights.
Local Open Scope R_scope.

Lemma sum_R_cons (y : R) (l : list R) : sum_R (y :: l) = y + sum_R l.
Proof. reflexivity. Qed.

Lemma sum_R_exp_pos (l : list R) : l ≠ [] → 0 < sum_R (exp <$> l).
Proof.
  destruct l as [|y l]; [done|]. intros _.
  rewrite fmap_cons, sum_R_cons.
  assert (0 <= sum_R (exp <$> l)).
  { apply sum_R_nonneg, Forall_fmap, Forall_forall.
    intros z _. apply Rlt_le, exp_pos. }
  pose proof (exp_pos y). lra.
Qed.

Lemma sum_R_exp_div (l : list R) (d : R) :
  sum_R ((λ s, exp s / d) <$> l) = sum_R (exp <$> l) / d.
Proof.
  induction l as [|y l IH]; [cbn; lra|].
  rewrite !fmap_cons, !sum_R_cons, IH. lra.
Qed.

Lemma softmax_distribution (l : list R) :
  l ≠ [] →
  sum_R (softmax l) = 1 ∧ Forall (λ w, 0 < w <= 1) (softmax l).
Proof.
  intros Hl. pose proof (sum_R_exp_pos l Hl) as Hpos. unfold softmax. split.
  - rewrite sum_R_exp_div. by apply Rdiv_diag, Rgt_not_eq.
  - apply Forall_fmap, Forall_lookup. intros j s Hs. cbn.
    pose proof (exp_pos s). pose proof (exp_le_sum l j s Hs). split.
    + by apply Rdiv_lt_0_compat.
    + apply (Rmult_le_reg_r (sum_R (exp <$> l))); [done|].
      unfold Rdiv. rewrite Rmult_assoc, Rinv_l by lra. lra.
Qed.

Lemma attention_row (a : AttModel) (x mask : list (list R)) (i : nat)
    (arow : list R) :
  attention a x mask !! i = Some arow →
  ∃ lrow,
    masked_logits (bmm_qk (project (fcq a) x) (project (fck a) x)) mask !! i
    = Some lrow
    ∧ arow = softmax lrow.
Proof.
  unfold attention. cbv zeta. rewrite list_lookup_fmap.
  destruct (masked_logits _ _ !! i) as [lrow|]; [|done].
  intros [= <-]. by exists lrow.
Qed.

(** X17. Every non-empty row of the attention weights of line 35 is a
    probability distribution over the neighbours: its weights are
    positive, at most 1, and sum to 1, whatever the mask. *)
Theorem attention_row_distribution (a : AttModel) (x mask : list (list R))
    (i : nat) (arow : list R) :
  attention a x mask !! i = Some arow → arow ≠ [] →
  sum_R arow = 1 ∧ Forall (λ w, 0 < w <= 1) arow.
Proof.
  intros Harow Hne.
  apply attention_row in Harow as (lrow & _ & ->).
  apply softmax_distribution. intros ->. by apply Hne.
Qed.








End AttentionWeights.

(** The weights agent 0 of [pair_mask] gives to the two agents. *)
Lemma attention_row_distribution_witness :
  ∃ arow,
    attention zero_att pair_x pair_mask !! 0%nat = Some arow
    ∧ sum_R arow = 1%R ∧ Forall (λ w, (0 < w <= 1)%R) arow.
Proof.
  eexists. split; [reflexivity|].
  apply (attention_row_distribution zero_att pair_x pair_mask 0);
    [reflexivity | discriminate].
Defined.



(** ** The input width when the agent has its attribute *)

(** X20. On an agent whose attribute [n_agents] holds [args.n_agents],
    [_get_input_shape] returns the documented width for every setting
    of the toggles, provided the one-hot action shape has an entry when
    [obs_last_action] is set: the attribute is all that [__init__]
    lacks. *)
Theorem get_input_shape_with_n_agents (args : Args) (scheme : Scheme) :
  (obs_last_action args = true → actions_onehot_vshape scheme ≠ []) →
  _get_input_shape
    {| agent_args := args; agent_n_agents := Some (n_agents args) |} scheme
  = Ok (documented_input_shape args scheme).
Proof.
  intros Hshape.
  unfold _get_input_shape, documented_input_shape, getitem.
  cbn [agent_args agent_n_agents getattr].
  destruct (obs_last_action args), (actions_onehot_vshape scheme) as [|d ds],
    (obs_agent_id args), (String.eqb (type args) "pq");
    try (by destruct Hshape); cbn; f_equal; lia.
Qed.

(** With [toy_args], which set [obs_agent_id]: 5 + 2 = 7. *)
Lemma get_input_shape_with_n_agents_witness :
  _get_input_shape {| agent_args := toy_args; agent_n_agents := Some 2%nat |}
    {| obs_vshape := 5; actions_onehot_vshape := [3%nat] |}
  = Ok 7%nat.
Proof.
  apply (get_input_shape_with_n_agents toy_args
           {| obs_vshape := 5; actions_onehot_vshape := [3%nat] |}).
  discriminate.
Defined.

(** ** Decoding a certificate piece by piece *)

(** X21. The certificate decoder works pair by pair: the decode of two
    vectors laid end to end, the first of even length, is the decode of
    the first followed by the decode of the second. *)
Theorem list_rev_onehot_app (x y : list Q) :
  Nat.Even (length x) →
  ∃ rx ry,
    list_rev_onehot x = Ok rx ∧ list_rev_onehot y = Ok ry
    ∧ list_rev_onehot (x ++ y) = Ok (rx ++ ry).
Proof.
  intros [k Hk]. eexists _, _.
  split; [apply list_rev_onehot_spec|]. split; [apply list_rev_onehot_spec|].
  rewrite list_rev_onehot_spec. f_equal.
  rewrite length_app, Hk.
  replace ((2 * k + length y) / 2)%nat with (k + length y / 2)%nat.
  2:{ replace (2 * k + length y)%nat with (length y + k * 2)%nat by lia.
      rewrite Nat.div_add by lia. lia. }
  replace (2 * k / 2)%nat with k
    by (rewrite Nat.mul_comm, Nat.div_mul; lia).
  rewrite seq_app, fmap_app. apply (f_equal2 (@app Z)).
  - apply list_fmap_ext. intros j idx Hj.
    apply lookup_seq in Hj as [-> Hlt].
    rewrite lookup_app_l by lia. done.
  - replace (seq (0 + k) (length y / 2))
      with (Nat.add k <$> seq 0 (length y / 2))
      by (by rewrite fmap_add_seq, Nat.add_comm).
    rewrite <- list_fmap_compose.
    apply list_fmap_ext. intros j idx Hj. cbn.
    rewrite lookup_app_r by lia. do 3 f_equal. lia.
Qed.

(** Two pairs followed by one pair. *)
Lemma list_rev_onehot_app_witness :
  ∃ rx ry,
    list_rev_onehot [1; 0; 0; 1]%Q = Ok rx ∧ list_rev_onehot [1; 0]%Q = Ok ry
    ∧ list_rev_onehot ([1; 0; 0; 1] ++ [1; 0])%Q = Ok (rx ++ ry).
Proof.
  apply (list_rev_onehot_app [1; 0; 0; 1]%Q [1; 0]%Q).
  exists 2%nat. reflexivity.
Defined.
